(** * LinearFitSearch: search strategies over sorted vectors of [size_t]

    A shallow embedding of [main.cpp]: the five [TestList_*] search
    functions, [Clamp], [VerifyResults], the six [MakeList_*] generators
    and one trial of the loop of [main], with the properties of the
    search strategies and of the generators proved over it.

    Conventions.
    - A [size_t] is a [Z] in [0, 2^64); every arithmetic operation of the
      source on a [size_t] is written with its wrap-around ([size_t.wrap]).
    - A [std::vector<size_t>] is a [list Z]; [values[i]] is [read values i],
      which is [None] when [i] is not below [values.size()].
    - A [float] is an IEEE-754 binary32 number, taken from the Standard
      Library's [SpecFloat] at precision 24 and maximal exponent 128.
    - A [while (1)] loop is its body, a function from the loop state to
      either the next state or the value the function returns, iterated by
      [loop] under a bound on the number of iterations. *)

From Stdlib Require Import String ZArith List Bool Lia.
From Stdlib Require Import Sorting.Sorted Sorting.Permutation Sorting.Mergesort.
From Stdlib Require Import Floats.SpecFloat.
Import ListNotations.
Local Open Scope Z_scope.

(** ** Machine integers *)

Module size_t.
Definition modulus : Z := 2 ^ 64.
Definition wrap (z : Z) : Z := z mod modulus.
Definition add (a b : Z) : Z := wrap (a + b).
Definition sub (a b : Z) : Z := wrap (a - b).
End size_t.

(** ** Single-precision floats *)

Module F32.
Definition prec : Z := 24.
Definition emax : Z := 128.
Definition float : Type := spec_float.

(** [float(n)] for a [size_t] or [int] [n]: rounded to nearest, ties to
    even. *)
Definition of_Z (n : Z) : float := binary_normalize prec emax n 0 false.

Definition add : float -> float -> float := SFadd prec emax.
Definition sub : float -> float -> float := SFsub prec emax.
Definition mul : float -> float -> float := SFmul prec emax.
Definition div : float -> float -> float := SFdiv prec emax.

(** [0.5f] *)
Definition half : float := S754_finite false 8388608 (-24).

(** The integer part of a finite float, towards zero. *)
Definition trunc (s : bool) (m : positive) (e : Z) : Z :=
  let a := if 0 <=? e then Zpos m * 2 ^ e else Zpos m / 2 ^ (- e) in
  if s then - a else a.

(** [size_t(x)]: the truncation of [x] when it is a [size_t]; the
    conversion is undefined for every other [x] (NaN, an infinity, a
    value at or below -1 or at or above 2^64). *)
Definition to_size_t (x : float) : option Z :=
  match x with
  | S754_zero _ => Some 0
  | S754_finite s m e =>
      let t := trunc s m e in
      if (0 <=? t) && (t <? size_t.modulus) then Some t else None
  | S754_infinity _ | S754_nan => None
  end.
End F32.

(** ** Constants and helpers *)

Definition c_maxValue : Z := 2000.

Definition Clamp (min max value : Z) : Z :=
  if value <? min then min
  else if value >? max then max
  else value.

(** ** Vectors *)

Definition size (values : list Z) : Z := Z.of_nat (length values).

Definition read (values : list Z) (i : Z) : option Z :=
  if (0 <=? i) && (i <? size values)
  then nth_error values (Z.to_nat i)
  else None.

(** ** Results

    [index] is [None] as long as the function has not assigned
    [ret.index]: [TestResults ret;] leaves the fields indeterminate. *)

Record TestResults : Type := mkTestResults {
  found : bool;
  index : option Z;
  guesses : Z
}.

(** How a call ends: it returns, or it reads [values[i]] outside the
    vector, or the bound on the iterations is reached. *)
Inductive outcome : Type :=
| Returned (ret : TestResults)
| OutOfBounds (i : Z)
| OutOfFuel.

(** A call together with the indices at which it read [values], the most
    recent first. *)
Record run : Type := mkRun {
  reads : list Z;
  result : outcome
}.

(** ** Loops *)

Inductive step (S : Type) : Type :=
| Continue (s : S)
| Done (r : run).
Arguments Continue {S} s.
Arguments Done {S} r.

Fixpoint loop {S : Type} (body : S -> step S) (fuel : nat) (s : S) : run :=
  match fuel with
  | O => mkRun [] OutOfFuel
  | Datatypes.S fuel' =>
      match body s with
      | Continue s' => loop body fuel' s'
      | Done r => r
      end
  end.

(** The state in which iteration [k] (from 0) starts, when the loop gets
    that far. *)
Fixpoint iteration {S : Type} (body : S -> step S) (k : nat) (s : S)
  : option S :=
  match k with
  | O => Some s
  | Datatypes.S k' =>
      match body s with
      | Continue s' => iteration body k' s'
      | Done _ => None
      end
  end.

(** ** TestList_LinearSearch *)

Record LinearState : Type := mkLinearState {
  lin_found : bool;
  lin_guesses : Z;
  lin_index : Z;
  lin_reads : list Z
}.

Definition LinearSearch_ret (found : bool) (guesses index : Z) : TestResults :=
  mkTestResults found (Some index) guesses.

Definition LinearSearch_body (values : list Z) (searchValue : Z)
    (st : LinearState) : step LinearState :=
  let idx := lin_index st in
  if size values <=? idx then
    Done (mkRun (lin_reads st)
            (Returned (LinearSearch_ret (lin_found st) (lin_guesses st) idx)))
  else
    let guesses := size_t.add (lin_guesses st) 1 in
    let reads := idx :: lin_reads st in
    match read values idx with
    | None => Done (mkRun reads (OutOfBounds idx))
    | Some value =>
        if value =? searchValue then
          Done (mkRun reads (Returned (LinearSearch_ret true guesses idx)))
        else if value >? searchValue then
          Done (mkRun reads
                  (Returned (LinearSearch_ret (lin_found st) guesses idx)))
        else
          Continue (mkLinearState (lin_found st) guesses
                      (size_t.add idx 1) reads)
    end.

Definition LinearSearch_init : LinearState := mkLinearState false 0 0 [].

Definition TestList_LinearSearch (values : list Z) (searchValue : Z) : run :=
  loop (LinearSearch_body values searchValue)
       (Datatypes.S (length values)) LinearSearch_init.

(** ** TestList_BinarySearch *)

Record BinaryState : Type := mkBinaryState {
  bin_minIndex : Z;
  bin_maxIndex : Z;
  bin_guesses : Z;
  bin_reads : list Z
}.

Definition BinarySearch_guessIndex (st : BinaryState) : Z :=
  size_t.add (bin_minIndex st) (bin_maxIndex st) / 2.

(** The bracket after the comparison of [guess] with [searchValue]; [None]
    is the early return of the underflow prevention. *)
Definition BinarySearch_narrow (st : BinaryState) (guessIndex guess
    searchValue : Z) : option (Z * Z) :=
  if guess <? searchValue then
    Some (size_t.add guessIndex 1, bin_maxIndex st)
  else if guess >? searchValue then
    if guessIndex =? 0 then None
    else Some (bin_minIndex st, size_t.sub guessIndex 1)
  else Some (bin_minIndex st, bin_maxIndex st).

Definition BinarySearch_body (values : list Z) (searchValue : Z)
    (st : BinaryState) : step BinaryState :=
  let guesses := size_t.add (bin_guesses st) 1 in
  let guessIndex := BinarySearch_guessIndex st in
  let reads := guessIndex :: bin_reads st in
  match read values guessIndex with
  | None => Done (mkRun reads (OutOfBounds guessIndex))
  | Some guess =>
      if guess =? searchValue then
        Done (mkRun reads
                (Returned (mkTestResults true (Some guessIndex) guesses)))
      else
        match BinarySearch_narrow st guessIndex guess searchValue with
        | None => Done (mkRun reads (Returned (mkTestResults false None guesses)))
        | Some (minIndex, maxIndex) =>
            if minIndex >? maxIndex then
              Done (mkRun reads (Returned (mkTestResults false None guesses)))
            else Continue (mkBinaryState minIndex maxIndex guesses reads)
        end
  end.

Definition BinarySearch_init (values : list Z) : BinaryState :=
  mkBinaryState 0 (size_t.sub (size values) 1) 0 [].

Definition TestList_BinarySearch (values : list Z) (searchValue : Z) : run :=
  loop (BinarySearch_body values searchValue)
       (Datatypes.S (length values)) (BinarySearch_init values).

(** ** TestList_LineFit and TestList_HybridSearch *)

Section Interpolation.

(** What [size_t(x)] leaves in [guessIndex] when the truncation of [x] is
    not a [size_t]: the language leaves that conversion undefined and the
    value is whatever the conversion instruction produces.  Everything
    below holds for each such value. *)
Variable unrepresentable : F32.float -> Z.

Definition size_t_of_float (x : F32.float) : Z :=
  match F32.to_size_t x with
  | Some n => n
  | None => size_t.wrap (unrepresentable x)
  end.

(** [m = (float(max) - float(min)) / float(maxIndex - minIndex)] *)
Definition slope (minIndex maxIndex min max : Z) : F32.float :=
  F32.div (F32.sub (F32.of_Z max) (F32.of_Z min))
          (F32.of_Z (size_t.sub maxIndex minIndex)).

(** [b = float(min) - m * float(minIndex)] *)
Definition intercept (minIndex min : Z) (m : F32.float) : F32.float :=
  F32.sub (F32.of_Z min) (F32.mul m (F32.of_Z minIndex)).

(** [size_t(0.5f + (float(searchValue) - b) / m)] *)
Definition lineGuess (searchValue : Z) (m b : F32.float) : Z :=
  size_t_of_float
    (F32.add F32.half (F32.div (F32.sub (F32.of_Z searchValue) b) m)).

Record FitState : Type := mkFitState {
  minIndex : Z;
  maxIndex : Z;
  min : Z;
  max : Z;
  m : F32.float;
  b : F32.float;
  fit_guesses : Z;
  fit_reads : list Z
}.

(** The state with which both functions enter their loop: the two end
    points read, the line fitted to them. *)
Definition fit_init (values : list Z) (min max : Z) : FitState :=
  let minIndex := 0 in
  let maxIndex := size_t.sub (size values) 1 in
  let m := slope minIndex maxIndex min max in
  mkFitState minIndex maxIndex min max m (intercept minIndex min m) 0
             [maxIndex; minIndex].

(** The index at which an iteration reads: the guess of the line fit,
    clamped. *)
Definition LineFit_guessIndex (searchValue : Z) (st : FitState) : Z :=
  let guessIndex := lineGuess searchValue (m st) (b st) in
  Clamp (size_t.add (minIndex st) 1) (size_t.sub (maxIndex st) 1)
        guessIndex.

Definition LineFit_body (values : list Z) (searchValue : Z) (st : FitState)
  : step FitState :=
  let guesses := size_t.add (fit_guesses st) 1 in
  let guessIndex := LineFit_guessIndex searchValue st in
  let reads := guessIndex :: fit_reads st in
  match read values guessIndex with
  | None => Done (mkRun reads (OutOfBounds guessIndex))
  | Some guess =>
      if guess =? searchValue then
        Done (mkRun reads
                (Returned (mkTestResults true (Some guessIndex) guesses)))
      else
        let '(minIndex', min', maxIndex', max') :=
          if guess <? searchValue
          then (guessIndex, guess, maxIndex st, max st)
          else (minIndex st, min st, guessIndex, guess) in
        if size_t.add minIndex' 1 >=? maxIndex' then
          Done (mkRun reads (Returned (mkTestResults false None guesses)))
        else
          let m' := slope minIndex' maxIndex' min' max' in
          Continue (mkFitState minIndex' maxIndex' min' max' m'
                      (intercept minIndex' min' m') guesses reads)
  end.

Definition TestList_LineFit (values : list Z) (searchValue : Z) : run :=
  let minIndex := 0 in
  let maxIndex := size_t.sub (size values) 1 in
  match read values minIndex with
  | None => mkRun [minIndex] (OutOfBounds minIndex)
  | Some min =>
      match read values maxIndex with
      | None => mkRun [maxIndex; minIndex] (OutOfBounds maxIndex)
      | Some max =>
          let reads := [maxIndex; minIndex] in
          if (searchValue <? min) || (searchValue >? max) then
            mkRun reads (Returned (mkTestResults false None 0))
          else if searchValue =? min then
            mkRun reads (Returned (mkTestResults true (Some minIndex) 0))
          else if searchValue =? max then
            mkRun reads (Returned (mkTestResults true (Some maxIndex) 0))
          else
            loop (LineFit_body values searchValue) (length values)
                 (fit_init values min max)
      end
  end.

Record HybridState : Type := mkHybridState {
  fit : FitState;
  doBinaryStep : bool
}.

(** The index the conditional expression of the body yields. *)
Definition Hybrid_unclamped (searchValue : Z) (hs : HybridState) : Z :=
  let st := fit hs in
  if doBinaryStep hs
  then size_t.add (minIndex st) (maxIndex st) / 2
  else lineGuess searchValue (m st) (b st).

(** The index at which an iteration reads. *)
Definition Hybrid_guessIndex (searchValue : Z) (hs : HybridState) : Z :=
  let st := fit hs in
  let guessIndex := Hybrid_unclamped searchValue hs in
  Clamp (size_t.add (minIndex st) 1) (size_t.sub (maxIndex st) 1)
        guessIndex.

Definition Hybrid_body (values : list Z) (searchValue : Z)
    (hs : HybridState) : step HybridState :=
  let st := fit hs in
  let guesses := size_t.add (fit_guesses st) 1 in
  let guessIndex := Hybrid_guessIndex searchValue hs in
  let reads := guessIndex :: fit_reads st in
  match read values guessIndex with
  | None => Done (mkRun reads (OutOfBounds guessIndex))
  | Some guess =>
      if guess =? searchValue then
        Done (mkRun reads
                (Returned (mkTestResults true (Some guessIndex) guesses)))
      else
        let '(minIndex', min', maxIndex', max') :=
          if guess <? searchValue
          then (guessIndex, guess, maxIndex st, max st)
          else (minIndex st, min st, guessIndex, guess) in
        if size_t.add minIndex' 1 >=? maxIndex' then
          Done (mkRun reads (Returned (mkTestResults false None guesses)))
        else
          let m' := slope minIndex' maxIndex' min' max' in
          Continue (mkHybridState
                      (mkFitState minIndex' maxIndex' min' max' m'
                         (intercept minIndex' min' m') guesses reads)
                      (negb (doBinaryStep hs)))
  end.

Definition Hybrid_init (values : list Z) (min max : Z) : HybridState :=
  mkHybridState (fit_init values min max) false.

Definition TestList_HybridSearch (values : list Z) (searchValue : Z) : run :=
  let minIndex := 0 in
  let maxIndex := size_t.sub (size values) 1 in
  match read values minIndex with
  | None => mkRun [minIndex] (OutOfBounds minIndex)
  | Some min =>
      match read values maxIndex with
      | None => mkRun [maxIndex; minIndex] (OutOfBounds maxIndex)
      | Some max =>
          let reads := [maxIndex; minIndex] in
          if (searchValue <? min) || (searchValue >? max) then
            mkRun reads (Returned (mkTestResults false None 0))
          else if searchValue =? min then
            mkRun reads (Returned (mkTestResults true (Some minIndex) 0))
          else if searchValue =? max then
            mkRun reads (Returned (mkTestResults true (Some maxIndex) 0))
          else
            loop (Hybrid_body values searchValue) (length values)
                 (Hybrid_init values min max)
      end
  end.

(** ** TestList_LineFitBlind *)

Definition TestList_LineFitBlind (values : list Z) (searchValue : Z) : run :=
  let r := TestList_LineFit values searchValue in
  match result r with
  | Returned ret =>
      mkRun (reads r)
        (Returned (mkTestResults (found ret) (index ret)
                     (size_t.add (guesses ret) 2)))
  | _ => r
  end.

End Interpolation.

(** ** VerifyResults *)

Inductive failure : Type :=
| FoundMismatch (result_found actual_found : bool) (list_name test : string)
| IndexMismatch (result_index actual_index : Z) (list_name test : string).

(** What a call of [VerifyResults] prints: one failure line or nothing.
    [None] stands for a call that does not get to its end: the linear
    search did not return, an index read is indeterminate, or [values] is
    read outside its bounds. *)
Definition VerifyResults (values : list Z) (searchValue : Z)
    (result_ : TestResults) (list_name test : string)
  : option (option failure) :=
  match result (TestList_LinearSearch values searchValue) with
  | Returned actualResult =>
      if negb (Bool.eqb (found result_) (found actualResult)) then
        Some (Some (FoundMismatch (found result_) (found actualResult)
                      list_name test))
      else if Bool.eqb (found result_) true then
        match index result_, index actualResult with
        | Some ri, Some ai =>
            if negb (ri =? ai) then
              match read values ri, read values ai with
              | Some x, Some y =>
                  if negb (x =? y)
                  then Some (Some (IndexMismatch ri ai list_name test))
                  else Some None
              | _, _ => None
              end
            else Some None
        | _, _ => None
        end
      else Some None
  | _ => None
  end.

(** ** The strategies of [TestFns], in the order of the table *)

Inductive strategy : Type :=
| LinearSearch | LineFit | LineFitBlind | BinarySearch | Hybrid.

Definition TestFns (unrepresentable : F32.float -> Z) (s : strategy)
  : list Z -> Z -> run :=
  match s with
  | LinearSearch => TestList_LinearSearch
  | LineFit => TestList_LineFit unrepresentable
  | LineFitBlind => TestList_LineFitBlind unrepresentable
  | BinarySearch => TestList_BinarySearch
  | Hybrid => TestList_HybridSearch unrepresentable
  end.

(** ** The generators MakeList_Linear and MakeList_Log *)

(** [std::sort] on a vector of [size_t]. *)
Module ZOrder <: Orders.TotalLeBool.
Definition t : Type := Z.
Definition leb : Z -> Z -> bool := Z.leb.
Lemma leb_total : forall x y, leb x y = true \/ leb y x = true.
Proof. intros x y. unfold leb. rewrite !Z.leb_le. lia. Qed.
End ZOrder.

Module ZSort := Sort ZOrder.

(** The values [0, 1, ..., count - 1] the [for] loops give to [index]. *)
Definition indices (count : Z) : list Z :=
  map Z.of_nat (seq 0 (Z.to_nat count)).

(** The vector once every element is stored; [None] as soon as one of the
    stored values comes from a conversion that is undefined. *)
Fixpoint stored (elements : list (option Z)) : option (list Z) :=
  match elements with
  | [] => Some []
  | None :: _ => None
  | Some v :: rest =>
      match stored rest with
      | Some l => Some (v :: l)
      | None => None
      end
  end.

(** [x = float(index) / float(count-1)] *)
Definition Linear_x (count index : Z) : F32.float :=
  F32.div (F32.of_Z index) (F32.of_Z (size_t.sub count 1)).

(** [y = x; y *= c_maxValue] *)
Definition Linear_y (count index : Z) : F32.float :=
  let x := Linear_x count index in
  let y := x in
  F32.mul y (F32.of_Z c_maxValue).

Definition MakeList_Linear (count : Z) : option (list Z) :=
  option_map ZSort.sort
    (stored (map (fun index => F32.to_size_t (Linear_y count index))
                 (indices count))).

Section Logarithm.

(** [log] at type [float], from the C library. *)
Variable logf : F32.float -> F32.float.

(** [maxValue = log(float(count))] *)
Definition Log_maxValue (count : Z) : F32.float := logf (F32.of_Z count).

(** [x = float(index + 1); y = log(x+1) / maxValue; y *= c_maxValue] *)
Definition Log_y (maxValue : F32.float) (index : Z) : F32.float :=
  let x := F32.of_Z (size_t.add index 1) in
  let y := F32.div (logf (F32.add x (F32.of_Z 1))) maxValue in
  F32.mul y (F32.of_Z c_maxValue).

Definition MakeList_Log (count : Z) : option (list Z) :=
  let maxValue := Log_maxValue count in
  option_map ZSort.sort
    (stored (map (fun index => F32.to_size_t (Log_y maxValue index))
                 (indices count))).

End Logarithm.

(** ** The other generators of [MakeFns] *)

(** [x = float(index) / float(count - 1); y = x * x; y *= c_maxValue] *)
Definition Quadratic_y (count index : Z) : F32.float :=
  let x := F32.div (F32.of_Z index) (F32.of_Z (size_t.sub count 1)) in
  let y := F32.mul x x in
  F32.mul y (F32.of_Z c_maxValue).

Definition MakeList_Quadratic (count : Z) : option (list Z) :=
  option_map ZSort.sort
    (stored (map (fun index => F32.to_size_t (Quadratic_y count index))
                 (indices count))).

(** [x = float(index) / float(count-1); y = x * x * x; y *= c_maxValue] *)
Definition Cubic_y (count index : Z) : F32.float :=
  let x := F32.div (F32.of_Z index) (F32.of_Z (size_t.sub count 1)) in
  let y := F32.mul (F32.mul x x) x in
  F32.mul y (F32.of_Z c_maxValue).

Definition MakeList_Cubic (count : Z) : option (list Z) :=
  option_map ZSort.sort
    (stored (map (fun index => F32.to_size_t (Cubic_y count index))
                 (indices count))).

(** [*values.rbegin() = v]: the last element is overwritten.  On an empty
    vector [rbegin()] is [rend()], and the store through it is
    undefined. *)
Definition set_last (values : list Z) (v : Z) : option (list Z) :=
  match values with
  | [] => None
  | _ :: _ => Some (removelast values ++ [v])
  end.

Definition MakeList_Linear_Outlier (count : Z) : option (list Z) :=
  match MakeList_Linear count with
  | Some values => set_last values (size_t.wrap (c_maxValue * 100))
  | None => None
  end.

(** [MakeList_Random] fills the vector with the values that [dist(rng)]
    returns, [draw i] for the call number [i], and sorts it. *)
Definition MakeList_Random (draw : Z -> Z) (count : Z) : option (list Z) :=
  Some (ZSort.sort (map draw (indices count))).

(** The generators of [MakeFns], in the order of the table. *)
Inductive generator : Type :=
| Random | Linear | Linear_Outlier | Quadratic | Cubic | Log.

Definition MakeFns (draw : Z -> Z) (logf : F32.float -> F32.float)
    (g : generator) : Z -> option (list Z) :=
  match g with
  | Random => MakeList_Random draw
  | Linear => MakeList_Linear
  | Linear_Outlier => MakeList_Linear_Outlier
  | Quadratic => MakeList_Quadratic
  | Cubic => MakeList_Cubic
  | Log => MakeList_Log logf
  end.

(** ** One trial of [main]

    The statements of the innermost loop of [main] that use the functions
    above: the search of [searchValue] in [values] by one of [TestFns],
    then the verification of its result. *)
Definition main_trial (unrepresentable : F32.float -> Z) (s : strategy)
    (values : list Z) (searchValue : Z) (list_name test : string)
  : option (option failure) :=
  match result (TestFns unrepresentable s values searchValue) with
  | Returned result_ =>
      VerifyResults values searchValue result_ list_name test
  | OutOfBounds _ | OutOfFuel => None
  end.

(** * Specifications *)

(** ** Well-formed inputs *)

(** No [std::vector<size_t>] has more than [PTRDIFF_MAX] elements (the
    implementations bound [max_size()] by 2^61 - 1). *)
Definition vector_max_size : Z := 2 ^ 63 - 1.

Definition in_bounds (values : list Z) (i : Z) : Prop := 0 <= i < size values.

(** [searchValue] is at some index of [lo .. hi]. *)
Definition hit (values : list Z) (searchValue lo hi : Z) : Prop :=
  exists j, lo <= j <= hi /\ read values j = Some searchValue.

(** ** Linear search *)

(** What a linear search returns: it stopped on the element at [p], equal
    to or greater than [searchValue], or it ran off the end with
    [p = size values]; every element before [p] is smaller. *)
Definition linear_post (values : list Z) (searchValue : Z) (r : run) : Prop :=
  exists fnd p g,
    result r = Returned (mkTestResults fnd (Some p) g) /\
    0 <= p <= size values /\
    Forall (in_bounds values) (reads r) /\
    (forall i, 0 <= i < p -> exists v, read values i = Some v /\ v < searchValue) /\
    ((fnd = true /\ read values p = Some searchValue /\
      hd_error (reads r) = Some p /\ g = p + 1) \/
     (fnd = false /\ (exists v, read values p = Some v /\ searchValue < v) /\
      hd_error (reads r) = Some p /\ g = p + 1) \/
     (fnd = false /\ p = size values /\ g = p /\
      hd_error (reads r) = if p =? 0 then None else Some (p - 1))).

Definition linear_inv (values : list Z) (searchValue : Z) (st : LinearState)
  : Prop :=
  lin_found st = false /\
  0 <= lin_index st <= size values /\
  lin_guesses st = lin_index st /\
  Forall (in_bounds values) (lin_reads st) /\
  hd_error (lin_reads st) =
    (if lin_index st =? 0 then None else Some (lin_index st - 1)) /\
  (forall i, 0 <= i < lin_index st ->
     exists v, read values i = Some v /\ v < searchValue).

(** ** Bracketing strategies *)

Definition binary_inv (values : list Z) (searchValue : Z) (st : BinaryState)
  : Prop :=
  0 <= bin_minIndex st <= bin_maxIndex st /\
  bin_maxIndex st < size values /\
  0 <= bin_guesses st /\
  bin_guesses st + (bin_maxIndex st - bin_minIndex st + 1) <= size values /\
  Forall (in_bounds values) (bin_reads st) /\
  (Sorted Z.le values -> In searchValue values ->
   hit values searchValue (bin_minIndex st) (bin_maxIndex st)).

(** What the bracketing strategies return. *)
Definition bracket_post (values : list Z) (searchValue : Z) (r : run) : Prop :=
  exists ret,
    result r = Returned ret /\
    Forall (in_bounds values) (reads r) /\
    0 <= guesses ret <= size values /\
    (found ret = true ->
     exists p, index ret = Some p /\ read values p = Some searchValue) /\
    (found ret = false -> index ret = None) /\
    (Sorted Z.le values -> In searchValue values -> found ret = true).

(** What every strategy returns. *)
Definition search_post (values : list Z) (searchValue : Z) (r : run) : Prop :=
  exists ret,
    result r = Returned ret /\
    Forall (in_bounds values) (reads r) /\
    (found ret = true ->
     exists p, index ret = Some p /\ read values p = Some searchValue) /\
    (Sorted Z.le values -> In searchValue values -> found ret = true).

(** The reading of "the index of a result that is not found is the
    position examined last". *)
Definition index_is_last_examined (r : run) : Prop :=
  forall ret, result r = Returned ret -> found ret = false ->
    index ret = hd_error (reads r).

Section BracketSpecs.

Variable values : list Z.
Variable searchValue : Z.

Definition fit_inv (st : FitState) : Prop :=
  0 <= minIndex st < maxIndex st /\
  maxIndex st < size values /\
  0 <= fit_guesses st /\
  fit_guesses st + (maxIndex st - minIndex st) <= size values /\
  Forall (in_bounds values) (fit_reads st) /\
  (Sorted Z.le values -> In searchValue values ->
   hit values searchValue (minIndex st + 1) (maxIndex st - 1)).

(** The part of the loop body that the two functions have in common:
    everything after [guessIndex] is clamped, up to the new line. *)
Definition probe_step (st : FitState) (guessIndex : Z) : step FitState :=
  let guesses := size_t.add (fit_guesses st) 1 in
  let reads := guessIndex :: fit_reads st in
  match read values guessIndex with
  | None => Done (mkRun reads (OutOfBounds guessIndex))
  | Some guess =>
      if guess =? searchValue then
        Done (mkRun reads
                (Returned (mkTestResults true (Some guessIndex) guesses)))
      else
        let '(minIndex', min', maxIndex', max') :=
          if guess <? searchValue
          then (guessIndex, guess, maxIndex st, max st)
          else (minIndex st, min st, guessIndex, guess) in
        if size_t.add minIndex' 1 >=? maxIndex' then
          Done (mkRun reads (Returned (mkTestResults false None guesses)))
        else
          let m' := slope minIndex' maxIndex' min' max' in
          Continue (mkFitState minIndex' maxIndex' min' max' m'
                      (intercept minIndex' min' m') guesses reads)
  end.

(** What one probe does to a bracket. *)
Definition probe_post (st : FitState) (p : Z) (s : step FitState) : Prop :=
  match s with
  | Continue st' =>
      fit_inv st' /\
      minIndex st <= minIndex st' /\ maxIndex st' <= maxIndex st /\
      maxIndex st' - minIndex st' < maxIndex st - minIndex st /\
      minIndex st' + 1 < maxIndex st' /\
      minIndex st + 1 < maxIndex st
  | Done r =>
      bracket_post values searchValue r /\
      hd_error (reads r) = Some p /\
      (forall ret, result r = Returned ret -> found ret = true ->
         index ret = Some p) /\
      forall ret, result r = Returned ret -> found ret = false ->
        exists guess, read values p = Some guess /\
          ((guess < searchValue /\ p + 1 >= maxIndex st) \/
           (searchValue < guess /\ minIndex st + 1 >= p))
  end.

End BracketSpecs.

(** The reading of "each loop iteration's probe index is clamped strictly
    inside the open bracket": whenever the line fit enters its loop, every
    iteration reads at an index strictly between [minIndex] and
    [maxIndex]. *)
Definition LineFit_probes_inside (unrepresentable : F32.float -> Z)
    (values : list Z) (searchValue : Z) : Prop :=
  forall min max k st,
    read values 0 = Some min -> read values (size values - 1) = Some max ->
    min < searchValue < max ->
    iteration (LineFit_body unrepresentable values searchValue) k
              (fit_init values min max) = Some st ->
    minIndex st < LineFit_guessIndex unrepresentable searchValue st
      < maxIndex st.

(** The line of a state is the one through the two ends of its bracket. *)
Definition line_fitted (st : FitState) : Prop :=
  m st = slope (minIndex st) (maxIndex st) (min st) (max st) /\
  b st = intercept (minIndex st) (min st) (m st).

(** ** Generators *)

(** [v] is the integer part of the float [y]: [v <= y < v + 1] for a [y]
    that is not negative, and [v = 0] with [-1 < y] for a negative one.
    The float [m * 2^e] is written as the fraction [num / den]. *)
Definition is_truncation (y : F32.float) (v : Z) : Prop :=
  match y with
  | S754_zero _ => v = 0
  | S754_finite s m e =>
      let num := Zpos m * 2 ^ Z.max e 0 in
      let den := 2 ^ Z.max (- e) 0 in
      if s then v = 0 /\ num < den
      else v * den <= num < (v + 1) * den
  | S754_infinity _ | S754_nan => False
  end.

(** [round(y)] as a [size_t], halves away from zero: what the description
    of the generators asks for where the source truncates. *)
Definition round_to_size_t (y : F32.float) : option Z :=
  match y with
  | S754_zero _ => Some 0
  | S754_finite s m e =>
      let num := Zpos m * 2 ^ Z.max e 0 in
      let den := 2 ^ Z.max (- e) 0 in
      let r := (2 * num + den) / (2 * den) in
      if s then (if r =? 0 then Some 0 else None)
      else if r <? size_t.modulus then Some r else None
  | S754_infinity _ | S754_nan => None
  end.

(** The value the description gives to index [i] of the logarithmic
    sequence: [round(V * log(i+2) / log(N+1))]. *)
Definition Log_described (logf : F32.float -> F32.float) (count index : Z)
  : option Z :=
  round_to_size_t
    (F32.div (F32.mul (F32.of_Z c_maxValue) (logf (F32.of_Z (index + 2))))
             (logf (F32.of_Z (count + 1)))).

(** The single-precision logarithm at the three arguments the examples
    need, correctly rounded: [log(1) = +0], [log(2) = 0x1.62e43p-1],
    [log(3) = 0x1.193ea8p+0]. *)
Definition logf_1_2_3 (x : F32.float) : F32.float :=
  match x with
  | S754_finite false 8388608 (-23) => S754_zero false
  | S754_finite false 8388608 (-22) => S754_finite false 11629080 (-24)
  | S754_finite false 12582912 (-22) => S754_finite false 9215828 (-23)
  | _ => S754_nan
  end.

(** ** Bounds on floats

    The finite float [m * 2^e] compared with an integer [K], for the
    floats whose exponent [e] is not positive (every float below 2^24 that
    a rounding returns is one), so that the comparison is one of
    integers: [m * 2^e <= K] is [m <= K * 2^(-e)]. *)

(** [x] is a float of [0 .. K]: a zero, or positive and at most [K]. *)
Definition float_le (x : F32.float) (K : Z) : Prop :=
  match x with
  | S754_zero _ => True
  | S754_finite false m e => e <= 0 /\ Zpos m <= K * 2 ^ (- e)
  | S754_finite true _ _ | S754_infinity _ | S754_nan => False
  end.

(** [x] is a positive finite float, and at least [K]. *)
Definition float_ge (x : F32.float) (K : Z) : Prop :=
  match x with
  | S754_finite false m e => e <= 0 /\ K * 2 ^ (- e) <= Zpos m
  | S754_zero _ | S754_finite true _ _ | S754_infinity _ | S754_nan => False
  end.

(** The exact value that a record of the rounding stands for, a mantissa
    with its round and sticky bits, is at most [B]. *)
Definition record_le (mrs : shr_record) (B : Z) : Prop :=
  shr_m mrs < B \/
  (shr_m mrs = B /\ shr_r mrs = false /\ shr_s mrs = false).

(** ** What the polynomial generators return *)

(** What a generator returns for [count]: a sorted vector of [count]
    values of [0 .. c_maxValue] that starts at 0 and ends at
    [c_maxValue]. *)
Definition spans_the_range (count : Z) (r : option (list Z)) : Prop :=
  exists values,
    r = Some values /\
    size values = count /\
    Sorted Z.le values /\
    Forall (fun v => 0 <= v <= c_maxValue) values /\
    read values 0 = Some 0 /\
    read values (count - 1) = Some c_maxValue.

(** * Proofs *)

(** ** Machine integers and reads *)

Lemma wrap_small (z : Z) : 0 <= z < size_t.modulus -> size_t.wrap z = z.
Proof. intros H. unfold size_t.wrap. now apply Z.mod_small. Qed.

Lemma modulus_eq : size_t.modulus = 18446744073709551616.
Proof. reflexivity. Qed.

Lemma vector_max_size_eq : vector_max_size = 9223372036854775807.
Proof. reflexivity. Qed.

Lemma add_small (a b : Z) :
  0 <= a + b < size_t.modulus -> size_t.add a b = a + b.
Proof. intros H. unfold size_t.add. now apply wrap_small. Qed.

Lemma sub_small (a b : Z) :
  0 <= a - b < size_t.modulus -> size_t.sub a b = a - b.
Proof. intros H. unfold size_t.sub. now apply wrap_small. Qed.

Ltac unwrap :=
  repeat first
    [ rewrite add_small by (rewrite modulus_eq; lia)
    | rewrite sub_small by (rewrite modulus_eq; lia) ].

Lemma size_nonneg (values : list Z) : 0 <= size values.
Proof. unfold size. lia. Qed.

Lemma size_pos (values : list Z) : values <> [] -> 0 < size values.
Proof. destruct values; [congruence | unfold size; simpl; lia]. Qed.

Lemma read_in_bounds (values : list Z) (i v : Z) :
  read values i = Some v -> 0 <= i < size values.
Proof.
  unfold read. destruct (0 <=? i) eqn:H0; destruct (i <? size values) eqn:H1;
    simpl; try discriminate.
  intros _. apply Z.leb_le in H0. apply Z.ltb_lt in H1. lia.
Qed.

Lemma read_defined (values : list Z) (i : Z) :
  0 <= i < size values -> exists v, read values i = Some v.
Proof.
  intros H. unfold read.
  replace (0 <=? i) with true by (symmetry; apply Z.leb_le; lia).
  replace (i <? size values) with true by (symmetry; apply Z.ltb_lt; lia).
  simpl. destruct (nth_error values (Z.to_nat i)) eqn:E; eauto.
  apply nth_error_None in E. unfold size in H. lia.
Qed.

Lemma In_read (values : list Z) (v : Z) :
  In v values -> exists i, read values i = Some v.
Proof.
  intros H. apply In_nth_error in H as [n Hn]. exists (Z.of_nat n).
  assert (n < length values)%nat by (apply nth_error_Some; congruence).
  unfold read, size.
  replace (0 <=? Z.of_nat n) with true by (symmetry; apply Z.leb_le; lia).
  replace (Z.of_nat n <? Z.of_nat (length values)) with true
    by (symmetry; apply Z.ltb_lt; lia).
  simpl. now rewrite Nat2Z.id.
Qed.

(** In a sorted vector the elements grow with the index. *)
Lemma sorted_read (values : list Z) (i j x y : Z) :
  Sorted Z.le values -> i <= j ->
  read values i = Some x -> read values j = Some y -> x <= y.
Proof.
  intros Hs Hij Hi Hj.
  apply Sorted_StronglySorted in Hs; [|intros a b c; lia].
  pose proof (read_in_bounds _ _ _ Hi) as Bi.
  pose proof (read_in_bounds _ _ _ Hj) as Bj.
  unfold read in Hi, Hj.
  destruct ((0 <=? i) && (i <? size values)); [|discriminate].
  destruct ((0 <=? j) && (j <? size values)); [|discriminate].
  assert (Hn : (Z.to_nat i <= Z.to_nat j)%nat) by lia.
  clear Hij Bi Bj.
  revert Hi Hj Hn. generalize (Z.to_nat i) (Z.to_nat j). clear i j.
  induction Hs as [|a l Hl IH Ha]; intros n k Hn Hk Hle.
  - destruct n; discriminate.
  - destruct n as [|n]; destruct k as [|k]; simpl in *.
    + inversion Hn; inversion Hk; subst; lia.
    + inversion Hn; subst. apply nth_error_In in Hk.
      rewrite Forall_forall in Ha. now apply Ha.
    + lia.
    + apply (IH n k); auto; lia.
Qed.

(** ** Loops *)

(** Total correctness of a loop from an invariant and a measure. *)
Lemma loop_rule {S : Type} (body : S -> step S) (Inv : S -> Prop)
    (measure : S -> Z) (Post : run -> Prop) :
  (forall s, Inv s ->
     0 <= measure s /\
     match body s with
     | Continue s' => Inv s' /\ measure s' < measure s
     | Done r => Post r
     end) ->
  forall fuel s, Inv s -> measure s < Z.of_nat fuel -> Post (loop body fuel s).
Proof.
  intros Hbody fuel. induction fuel as [|fuel IH]; intros s Hs Hm.
  - destruct (Hbody s Hs) as [H0 _]. simpl in Hm. lia.
  - simpl. destruct (Hbody s Hs) as [H0 Hb].
    destruct (body s) as [s'|r]; [|exact Hb].
    destruct Hb as [Hs' Hlt]. apply IH; [exact Hs'|lia].
Qed.

Lemma iteration_succ {S : Type} (body : S -> step S) (k : nat) (s : S) :
  iteration body (Datatypes.S k) s =
  match iteration body k s with
  | Some s' =>
      match body s' with
      | Continue s'' => Some s''
      | Done _ => None
      end
  | None => None
  end.
Proof.
  revert s. induction k as [|k IH]; intros s.
  - simpl. destruct (body s); reflexivity.
  - change (iteration body (Datatypes.S (Datatypes.S k)) s)
      with (match body s with
            | Continue s' => iteration body (Datatypes.S k) s'
            | Done _ => None
            end).
    destruct (body s) as [s'|r] eqn:E.
    + rewrite IH. simpl. rewrite E. reflexivity.
    + simpl. rewrite E. reflexivity.
Qed.

Lemma loop_succ {S : Type} (body : S -> step S) (fuel : nat) (s : S) :
  loop body (Datatypes.S fuel) s =
  match body s with
  | Continue s' => loop body fuel s'
  | Done r => r
  end.
Proof. reflexivity. Qed.

(** A loop that does not run out of iterations returns from one of its
    iterations, and returns the same with any larger bound. *)
Lemma loop_exits {S : Type} (body : S -> step S) (fuel : nat) (s : S) :
  result (loop body fuel s) <> OutOfFuel ->
  exists k st,
    (k < fuel)%nat /\ iteration body k s = Some st /\
    body st = Done (loop body fuel s).
Proof.
  revert s. induction fuel as [|fuel IH]; intros s H.
  - simpl in H. congruence.
  - simpl in *. destruct (body s) as [s'|r] eqn:E.
    + destruct (IH s' H) as (k & st & Hk & Hit & Hst).
      exists (Datatypes.S k), st. simpl. rewrite E.
      split; [lia|]. auto.
    + exists O, s. simpl. split; [lia|]. auto.
Qed.

Lemma loop_more_fuel {S : Type} (body : S -> step S) (fuel fuel' : nat)
    (s : S) :
  result (loop body fuel s) <> OutOfFuel -> (fuel <= fuel')%nat ->
  loop body fuel' s = loop body fuel s.
Proof.
  revert fuel' s. induction fuel as [|fuel IH]; intros fuel' s H Hle.
  - simpl in H. congruence.
  - destruct fuel' as [|fuel']; [lia|]. simpl in *.
    destruct (body s) as [s'|r]; [|reflexivity].
    apply IH; [exact H | lia].
Qed.

(** A property of the iteration count and the state that the body
    preserves holds at the start of every iteration. *)
Lemma iteration_rule {S : Type} (body : S -> step S)
    (Inv : nat -> S -> Prop) (s0 : S) :
  Inv O s0 ->
  (forall k s s', Inv k s -> body s = Continue s' -> Inv (Datatypes.S k) s') ->
  forall k s, iteration body k s0 = Some s -> Inv k s.
Proof.
  intros H0 Hstep k. induction k as [|k IH]; intros s Hk.
  - simpl in Hk. inversion Hk; subst. exact H0.
  - rewrite iteration_succ in Hk.
    destruct (iteration body k s0) as [s1|] eqn:E; [|discriminate].
    destruct (body s1) as [s2|r] eqn:Eb; [|discriminate].
    inversion Hk; subst. eapply Hstep; [apply IH; reflexivity | exact Eb].
Qed.

(** ** Linear search *)

Lemma LinearSearch_body_spec (values : list Z) (searchValue : Z)
    (st : LinearState) :
  size values <= vector_max_size ->
  linear_inv values searchValue st ->
  0 <= size values - lin_index st /\
  match LinearSearch_body values searchValue st with
  | Continue st' =>
      linear_inv values searchValue st' /\
      size values - lin_index st' < size values - lin_index st
  | Done r => linear_post values searchValue r
  end.
Proof.
  intros Hmax (Hf & Hidx & Hg & Hr & Hhd & Hlt).
  rewrite vector_max_size_eq in Hmax.
  split; [lia|]. unfold LinearSearch_body.
  destruct (size values <=? lin_index st) eqn:E.
  - apply Z.leb_le in E. assert (Heq : lin_index st = size values) by lia.
    exists false, (lin_index st), (lin_index st). simpl.
    unfold LinearSearch_ret. rewrite Hf, Hg.
    split; [reflexivity|]. split; [lia|]. split; [exact Hr|].
    split; [exact Hlt|]. right; right. auto.
  - apply Z.leb_gt in E.
    destruct (read_defined values (lin_index st)) as [value Hv]; [lia|].
    rewrite Hv. unwrap. rewrite Hg.
    assert (Hr' : Forall (in_bounds values) (lin_index st :: lin_reads st)).
    { constructor; [unfold in_bounds; lia | exact Hr]. }
    destruct (value =? searchValue) eqn:Eeq.
    + apply Z.eqb_eq in Eeq. subst value.
      exists true, (lin_index st), (lin_index st + 1). simpl.
      unfold LinearSearch_ret.
      split; [reflexivity|]. split; [lia|]. split; [exact Hr'|].
      split; [exact Hlt|]. left. auto.
    + apply Z.eqb_neq in Eeq.
      destruct (value >? searchValue) eqn:Egt.
      * apply Z.gtb_lt in Egt.
        exists false, (lin_index st), (lin_index st + 1). simpl.
        unfold LinearSearch_ret. rewrite Hf.
        split; [reflexivity|]. split; [lia|]. split; [exact Hr'|].
        split; [exact Hlt|]. right; left.
        split; [reflexivity|]. split; [exists value; auto|]. auto.
      * assert (value < searchValue).
        { destruct (Z.gtb_spec value searchValue); [discriminate | lia]. }
        split; [|simpl; lia].
        unfold linear_inv; simpl. repeat split; auto; try lia.
        -- destruct (lin_index st + 1 =? 0) eqn:E0;
             [apply Z.eqb_eq in E0; lia|]. f_equal; lia.
        -- intros i Hi. destruct (Z.eq_dec i (lin_index st)) as [->|Hne].
           ++ exists value. auto.
           ++ apply Hlt. lia.
Qed.

Lemma LinearSearch_spec (values : list Z) (searchValue : Z) :
  size values <= vector_max_size ->
  linear_post values searchValue (TestList_LinearSearch values searchValue).
Proof.
  intros Hmax. unfold TestList_LinearSearch.
  apply (loop_rule (LinearSearch_body values searchValue)
           (linear_inv values searchValue)
           (fun st => size values - lin_index st)).
  - intros s Hs. now apply LinearSearch_body_spec.
  - unfold linear_inv, LinearSearch_init; simpl.
    pose proof (size_nonneg values).
    repeat split; auto; try lia.
  - simpl lin_index. unfold size. lia.
Qed.

(** ** Binary search *)

Lemma BinarySearch_guessIndex_mid (values : list Z) (searchValue : Z)
    (st : BinaryState) :
  size values <= vector_max_size ->
  binary_inv values searchValue st ->
  BinarySearch_guessIndex st = (bin_minIndex st + bin_maxIndex st) / 2 /\
  bin_minIndex st <= BinarySearch_guessIndex st <= bin_maxIndex st.
Proof.
  intros Hmax (Hb & Hsz & _). rewrite vector_max_size_eq in Hmax.
  unfold BinarySearch_guessIndex. unwrap. split; [reflexivity|].
  split.
  - apply Z.div_le_lower_bound; lia.
  - apply Z.div_le_upper_bound; lia.
Qed.

Lemma miss_post (values : list Z) (searchValue : Z) (rds : list Z) (g : Z) :
  Forall (in_bounds values) rds -> 0 <= g <= size values ->
  (Sorted Z.le values -> In searchValue values -> False) ->
  bracket_post values searchValue
    (mkRun rds (Returned (mkTestResults false None g))).
Proof.
  intros Hr Hg Hno. exists (mkTestResults false None g). simpl.
  split; [reflexivity|]. split; [exact Hr|]. split; [exact Hg|].
  split; [discriminate|]. split; [reflexivity|].
  intros Hs Hin. destruct (Hno Hs Hin).
Qed.

Lemma hit_post (values : list Z) (searchValue : Z) (rds : list Z) (p g : Z) :
  Forall (in_bounds values) rds -> 0 <= g <= size values ->
  read values p = Some searchValue ->
  bracket_post values searchValue
    (mkRun rds (Returned (mkTestResults true (Some p) g))).
Proof.
  intros Hr Hg Hp. exists (mkTestResults true (Some p) g). simpl.
  split; [reflexivity|]. split; [exact Hr|]. split; [exact Hg|].
  split; [intros _; exists p; auto|]. split; [discriminate|]. reflexivity.
Qed.

(** In a sorted vector, a probe below the target leaves the target to its
    right, and a probe above it leaves the target to its left. *)
Lemma sorted_right (values : list Z) (searchValue p guess j : Z) :
  Sorted Z.le values -> read values p = Some guess ->
  read values j = Some searchValue -> guess < searchValue -> p < j.
Proof.
  intros Hs Hp Hj Hlt. destruct (Z_lt_le_dec p j) as [|Hle]; [assumption|].
  pose proof (sorted_read values j p searchValue guess Hs Hle Hj Hp). lia.
Qed.

Lemma sorted_left (values : list Z) (searchValue p guess j : Z) :
  Sorted Z.le values -> read values p = Some guess ->
  read values j = Some searchValue -> searchValue < guess -> j < p.
Proof.
  intros Hs Hp Hj Hlt. destruct (Z_lt_le_dec j p) as [|Hle]; [assumption|].
  pose proof (sorted_read values p j guess searchValue Hs Hle Hp Hj). lia.
Qed.

Lemma BinarySearch_body_spec (values : list Z) (searchValue : Z)
    (st : BinaryState) :
  size values <= vector_max_size ->
  binary_inv values searchValue st ->
  0 <= bin_maxIndex st - bin_minIndex st /\
  match BinarySearch_body values searchValue st with
  | Continue st' =>
      binary_inv values searchValue st' /\
      bin_maxIndex st' - bin_minIndex st' < bin_maxIndex st - bin_minIndex st
  | Done r => bracket_post values searchValue r
  end.
Proof.
  intros Hmax Hinv.
  destruct (BinarySearch_guessIndex_mid values searchValue st Hmax Hinv)
    as [_ Hg].
  destruct Hinv as (Hb & Hsz & Hg0 & Hgs & Hr & Hhit).
  rewrite vector_max_size_eq in Hmax.
  split; [lia|]. unfold BinarySearch_body.
  set (g := BinarySearch_guessIndex st) in *.
  destruct (read_defined values g) as [guess Hv]; [lia|].
  rewrite Hv. unwrap.
  assert (Hr' : Forall (in_bounds values) (g :: bin_reads st)).
  { constructor; [unfold in_bounds; lia | exact Hr]. }
  destruct (guess =? searchValue) eqn:Eeq.
  { apply Z.eqb_eq in Eeq. subst guess. apply hit_post; auto. lia. }
  apply Z.eqb_neq in Eeq. unfold BinarySearch_narrow.
  destruct (guess <? searchValue) eqn:Elt.
  - apply Z.ltb_lt in Elt. unwrap.
    destruct (g + 1 >? bin_maxIndex st) eqn:Eex.
    + apply Z.gtb_lt in Eex. apply miss_post; auto; [lia|].
      intros Hs Hin. destruct (Hhit Hs Hin) as (j & Hj & Hrj).
      pose proof (sorted_right _ _ _ _ _ Hs Hv Hrj Elt). lia.
    + assert (g + 1 <= bin_maxIndex st).
      { destruct (Z.gtb_spec (g + 1) (bin_maxIndex st)); [discriminate|lia]. }
      split; [|simpl; lia].
      unfold binary_inv; simpl.
      split; [lia|]. split; [lia|]. split; [lia|]. split; [lia|].
      split; [exact Hr'|].
      intros Hs Hin. destruct (Hhit Hs Hin) as (j & Hj & Hrj).
      pose proof (sorted_right _ _ _ _ _ Hs Hv Hrj Elt).
      exists j. split; [lia|exact Hrj].
  - assert (Hgt : searchValue < guess).
    { destruct (Z.ltb_spec guess searchValue); [discriminate|lia]. }
    replace (guess >? searchValue) with true by (symmetry; apply Z.gtb_lt; lia).
    destruct (g =? 0) eqn:E0.
    + apply Z.eqb_eq in E0. apply miss_post; auto; [lia|].
      intros Hs Hin. destruct (Hhit Hs Hin) as (j & Hj & Hrj).
      pose proof (sorted_left _ _ _ _ _ Hs Hv Hrj Hgt). lia.
    + apply Z.eqb_neq in E0. unwrap.
      destruct (bin_minIndex st >? g - 1) eqn:Eex.
      * apply Z.gtb_lt in Eex. apply miss_post; auto; [lia|].
        intros Hs Hin. destruct (Hhit Hs Hin) as (j & Hj & Hrj).
        pose proof (sorted_left _ _ _ _ _ Hs Hv Hrj Hgt). lia.
      * assert (bin_minIndex st <= g - 1).
        { destruct (Z.gtb_spec (bin_minIndex st) (g - 1));
            [discriminate|lia]. }
        split; [|simpl; lia].
        unfold binary_inv; simpl.
        split; [lia|]. split; [lia|]. split; [lia|]. split; [lia|].
        split; [exact Hr'|].
        intros Hs Hin. destruct (Hhit Hs Hin) as (j & Hj & Hrj).
        pose proof (sorted_left _ _ _ _ _ Hs Hv Hrj Hgt).
        exists j. split; [lia|exact Hrj].
Qed.

Lemma BinarySearch_init_inv (values : list Z) (searchValue : Z) :
  values <> [] -> size values <= vector_max_size ->
  binary_inv values searchValue (BinarySearch_init values).
Proof.
  intros Hne Hmax. pose proof (size_pos values Hne).
  rewrite vector_max_size_eq in Hmax.
  unfold binary_inv, BinarySearch_init; simpl. unwrap.
  split; [lia|]. split; [lia|]. split; [lia|]. split; [lia|].
  split; [constructor|].
  intros _ Hin. apply In_read in Hin as [j Hj].
  pose proof (read_in_bounds _ _ _ Hj). exists j. split; [lia|exact Hj].
Qed.

Lemma BinarySearch_spec (values : list Z) (searchValue : Z) :
  values <> [] -> size values <= vector_max_size ->
  bracket_post values searchValue (TestList_BinarySearch values searchValue).
Proof.
  intros Hne Hmax. unfold TestList_BinarySearch.
  apply (loop_rule (BinarySearch_body values searchValue)
           (binary_inv values searchValue)
           (fun st => bin_maxIndex st - bin_minIndex st)).
  - intros s Hs. now apply BinarySearch_body_spec.
  - now apply BinarySearch_init_inv.
  - pose proof (size_pos values Hne). rewrite vector_max_size_eq in Hmax.
    unfold BinarySearch_init; simpl. unwrap. unfold size in *. lia.
Qed.

(** ** Line fit and hybrid search *)

Lemma Clamp_cases (lo hi v : Z) :
  (v < lo /\ Clamp lo hi v = lo) \/
  (lo <= v /\ hi < v /\ Clamp lo hi v = hi) \/
  (lo <= v <= hi /\ Clamp lo hi v = v).
Proof.
  unfold Clamp. destruct (Z.ltb_spec v lo); [left; auto|].
  destruct (Z.gtb_spec v hi); [right; left; auto | right; right; split; auto; lia].
Qed.


Section InterpolationProofs.

Variable unrepresentable : F32.float -> Z.
Variable values : list Z.
Variable searchValue : Z.
Hypothesis values_max : size values <= vector_max_size.

Lemma LineFit_body_probe (st : FitState) :
  LineFit_body unrepresentable values searchValue st =
  probe_step values searchValue st (LineFit_guessIndex unrepresentable searchValue st).
Proof. reflexivity. Qed.

Lemma Hybrid_body_probe (hs : HybridState) :
  Hybrid_body unrepresentable values searchValue hs =
  match probe_step values searchValue (fit hs)
          (Hybrid_guessIndex unrepresentable searchValue hs) with
  | Continue st' => Continue (mkHybridState st' (negb (doBinaryStep hs)))
  | Done r => Done r
  end.
Proof.
  unfold Hybrid_body, probe_step.
  destruct (read values _) as [guess|]; [|reflexivity].
  destruct (guess =? searchValue); [reflexivity|].
  destruct (guess <? searchValue);
    match goal with |- context [if ?c then _ else _] => destruct c end;
    reflexivity.
Qed.

(** The clamped index is never outside the bracket, and strictly inside
    it as soon as the bracket has an inside. *)
Lemma clamped_in_bracket (st : FitState) (raw : Z) :
  fit_inv values searchValue st ->
  let p := Clamp (size_t.add (minIndex st) 1) (size_t.sub (maxIndex st) 1)
                 raw in
  minIndex st <= p <= maxIndex st /\
  (minIndex st + 1 < maxIndex st -> minIndex st < p < maxIndex st).
Proof.
  intros (Hb & Hsz & _) p. subst p.
  rewrite vector_max_size_eq in values_max. unwrap.
  destruct (Clamp_cases (minIndex st + 1) (maxIndex st - 1) raw)
    as [[? ->]|[(? & ? & ->)|[? ->]]]; lia.
Qed.

Lemma probe_step_spec (st : FitState) (p : Z) :
  fit_inv values searchValue st ->
  minIndex st <= p <= maxIndex st ->
  (minIndex st + 1 < maxIndex st -> minIndex st < p < maxIndex st) ->
  probe_post values searchValue st p (probe_step values searchValue st p).
Proof.
  intros (Hb & Hsz & Hg0 & Hgs & Hr & Hhit) Hp Hstrict.
  rewrite vector_max_size_eq in values_max.
  unfold probe_step.
  destruct (read_defined values p) as [guess Hv]; [lia|].
  rewrite Hv. unwrap.
  assert (Hr' : Forall (in_bounds values) (p :: fit_reads st)).
  { constructor; [unfold in_bounds; lia | exact Hr]. }
  destruct (guess =? searchValue) eqn:Eeq.
  { apply Z.eqb_eq in Eeq. subst guess. simpl.
    split; [apply hit_post; auto; lia|]. split; [reflexivity|].
    split; intros ret Hret Hf; inversion Hret; subst;
      [reflexivity | discriminate]. }
  apply Z.eqb_neq in Eeq.
  destruct (guess <? searchValue) eqn:Elt.
  - apply Z.ltb_lt in Elt. unwrap.
    destruct (p + 1 >=? maxIndex st) eqn:Eex.
    + apply Z.geb_le in Eex. simpl.
      split; [|split; [reflexivity|split]].
      * apply miss_post; auto; [lia|].
        intros Hs Hin. destruct (Hhit Hs Hin) as (j & Hj & Hrj).
        pose proof (sorted_right _ _ _ _ _ Hs Hv Hrj Elt). lia.
      * intros ret Hret Hf. inversion Hret; subst. discriminate.
      * intros ret _ _. exists guess. split; [exact Hv|]. left. lia.
    + assert (p + 1 < maxIndex st).
      { destruct (Z.geb_spec (p + 1) (maxIndex st)); [discriminate|lia]. }
      simpl. split; [|lia].
      unfold fit_inv; simpl.
      split; [lia|]. split; [lia|]. split; [lia|]. split; [lia|].
      split; [exact Hr'|].
      intros Hs Hin. destruct (Hhit Hs Hin) as (j & Hj & Hrj).
      pose proof (sorted_right _ _ _ _ _ Hs Hv Hrj Elt).
      exists j. split; [lia|exact Hrj].
  - assert (Hgt : searchValue < guess).
    { destruct (Z.ltb_spec guess searchValue); [discriminate|lia]. }
    unwrap.
    destruct (minIndex st + 1 >=? p) eqn:Eex.
    + apply Z.geb_le in Eex. simpl.
      split; [|split; [reflexivity|split]].
      * apply miss_post; auto; [lia|].
        intros Hs Hin. destruct (Hhit Hs Hin) as (j & Hj & Hrj).
        pose proof (sorted_left _ _ _ _ _ Hs Hv Hrj Hgt). lia.
      * intros ret Hret Hf. inversion Hret; subst. discriminate.
      * intros ret _ _. exists guess. split; [exact Hv|]. right. lia.
    + assert (minIndex st + 1 < p).
      { destruct (Z.geb_spec (minIndex st + 1) p); [discriminate|lia]. }
      simpl. split; [|lia].
      unfold fit_inv; simpl.
      split; [lia|]. split; [lia|]. split; [lia|]. split; [lia|].
      split; [exact Hr'|].
      intros Hs Hin. destruct (Hhit Hs Hin) as (j & Hj & Hrj).
      pose proof (sorted_left _ _ _ _ _ Hs Hv Hrj Hgt).
      exists j. split; [lia|exact Hrj].
Qed.

Lemma LineFit_body_spec (st : FitState) :
  fit_inv values searchValue st ->
  probe_post values searchValue st (LineFit_guessIndex unrepresentable searchValue st)
    (LineFit_body unrepresentable values searchValue st).
Proof.
  intros Hinv. rewrite LineFit_body_probe.
  destruct (clamped_in_bracket st
              (lineGuess unrepresentable searchValue (m st) (b st)) Hinv).
  now apply probe_step_spec.
Qed.

Lemma Hybrid_body_spec (hs : HybridState) :
  fit_inv values searchValue (fit hs) ->
  match Hybrid_body unrepresentable values searchValue hs with
  | Continue hs' =>
      probe_post values searchValue (fit hs)
        (Hybrid_guessIndex unrepresentable searchValue hs)
        (Continue (fit hs')) /\
      doBinaryStep hs' = negb (doBinaryStep hs)
  | Done r =>
      probe_post values searchValue (fit hs)
        (Hybrid_guessIndex unrepresentable searchValue hs) (Done r)
  end.
Proof.
  intros Hinv. rewrite Hybrid_body_probe.
  destruct (clamped_in_bracket (fit hs)
              (Hybrid_unclamped unrepresentable searchValue hs) Hinv)
    as [H1 H2].
  pose proof (probe_step_spec (fit hs)
                (Hybrid_guessIndex unrepresentable searchValue hs)
                Hinv H1 H2) as Hp.
  destruct (probe_step values searchValue (fit hs) _) as [st'|r]; simpl; auto.
Qed.

End InterpolationProofs.

(** ** The whole functions *)

Section WholeFunctions.

Variable unrepresentable : F32.float -> Z.
Variable values : list Z.
Variable searchValue : Z.
Hypothesis values_nonempty : values <> [].
Hypothesis values_max : size values <= vector_max_size.

Lemma fit_init_inv (min max : Z) :
  read values 0 = Some min -> read values (size values - 1) = Some max ->
  min < searchValue < max ->
  fit_inv values searchValue (fit_init values min max) /\
  minIndex (fit_init values min max) = 0 /\
  maxIndex (fit_init values min max) = size values - 1.
Proof.
  intros Hmin Hmax Hlt. pose proof (size_pos values values_nonempty) as Hpos.
  pose proof values_max as Hm. rewrite vector_max_size_eq in Hm.
  unfold fit_init, fit_inv; simpl. unwrap.
  assert (size values - 1 <> 0).
  { intros E. rewrite E in Hmax. rewrite Hmin in Hmax. inversion Hmax. lia. }
  split; [|split; reflexivity].
  split; [lia|]. split; [lia|]. split; [lia|]. split; [lia|].
  split.
  { repeat constructor; unfold in_bounds; lia. }
  intros _ Hin. apply In_read in Hin as [j Hj].
  pose proof (read_in_bounds _ _ _ Hj).
  assert (j <> 0) by (intros ->; rewrite Hmin in Hj; inversion Hj; lia).
  assert (j <> size values - 1)
    by (intros ->; rewrite Hmax in Hj; inversion Hj; lia).
  exists j. split; [lia|exact Hj].
Qed.

(** The part before the loop, which the two functions share: the reads of
    the two ends and the three early returns. *)
Lemma prologue_spec (enter : Z -> Z -> run) :
  (forall min max,
     read values 0 = Some min -> read values (size values - 1) = Some max ->
     min < searchValue < max ->
     bracket_post values searchValue (enter min max)) ->
  bracket_post values searchValue
    (match read values 0 with
     | None => mkRun [0] (OutOfBounds 0)
     | Some min =>
         match read values (size_t.sub (size values) 1) with
         | None =>
             mkRun [size_t.sub (size values) 1; 0]
                   (OutOfBounds (size_t.sub (size values) 1))
         | Some max =>
             if (searchValue <? min) || (searchValue >? max) then
               mkRun [size_t.sub (size values) 1; 0]
                     (Returned (mkTestResults false None 0))
             else if searchValue =? min then
               mkRun [size_t.sub (size values) 1; 0]
                     (Returned (mkTestResults true (Some 0) 0))
             else if searchValue =? max then
               mkRun [size_t.sub (size values) 1; 0]
                     (Returned
                        (mkTestResults true
                           (Some (size_t.sub (size values) 1)) 0))
             else enter min max
         end
     end).
Proof.
  intros Henter. pose proof (size_pos values values_nonempty) as Hpos.
  pose proof values_max as Hm. rewrite vector_max_size_eq in Hm.
  unwrap.
  destruct (read_defined values 0) as [min Hmin]; [lia|].
  destruct (read_defined values (size values - 1)) as [max Hmax]; [lia|].
  rewrite Hmin, Hmax.
  assert (Hr : Forall (in_bounds values) [size values - 1; 0]).
  { repeat constructor; unfold in_bounds; lia. }
  destruct ((searchValue <? min) || (searchValue >? max)) eqn:Eout.
  { apply miss_post; auto; [lia|].
    intros Hs Hin. apply In_read in Hin as [j Hj].
    pose proof (read_in_bounds _ _ _ Hj) as Hb.
    assert (H0j : 0 <= j) by lia. assert (Hjl : j <= size values - 1) by lia.
    pose proof (sorted_read values 0 j min searchValue Hs H0j Hmin Hj).
    pose proof (sorted_read values j _ searchValue max Hs Hjl Hj Hmax).
    apply orb_true_iff in Eout as [E|E];
      [apply Z.ltb_lt in E | apply Z.gtb_lt in E]; lia. }
  apply orb_false_iff in Eout as [E1 E2].
  apply Z.ltb_ge in E1.
  assert (E2' : searchValue <= max).
  { destruct (Z.gtb_spec searchValue max); [discriminate|lia]. }
  destruct (searchValue =? min) eqn:Emin.
  { apply Z.eqb_eq in Emin. subst min. apply hit_post; auto. lia. }
  destruct (searchValue =? max) eqn:Emax.
  { apply Z.eqb_eq in Emax. subst max. apply hit_post; auto. lia. }
  apply Z.eqb_neq in Emin. apply Z.eqb_neq in Emax.
  apply Henter; auto. lia.
Qed.

Lemma LineFit_loop_spec (fuel : nat) (st : FitState) :
  fit_inv values searchValue st ->
  maxIndex st - minIndex st < Z.of_nat fuel ->
  bracket_post values searchValue
    (loop (LineFit_body unrepresentable values searchValue) fuel st).
Proof.
  apply (loop_rule (LineFit_body unrepresentable values searchValue)
           (fit_inv values searchValue)
           (fun st => maxIndex st - minIndex st)).
  intros s Hs.
  pose proof (LineFit_body_spec unrepresentable values searchValue
                values_max s Hs) as Hb.
  split; [destruct Hs; lia|].
  destruct (LineFit_body unrepresentable values searchValue s); simpl in Hb.
  - destruct Hb as (? & ? & ? & ? & ?). auto.
  - apply Hb.
Qed.

Lemma Hybrid_loop_spec (fuel : nat) (hs : HybridState) :
  fit_inv values searchValue (fit hs) ->
  maxIndex (fit hs) - minIndex (fit hs) < Z.of_nat fuel ->
  bracket_post values searchValue
    (loop (Hybrid_body unrepresentable values searchValue) fuel hs).
Proof.
  apply (loop_rule (Hybrid_body unrepresentable values searchValue)
           (fun hs => fit_inv values searchValue (fit hs))
           (fun hs => maxIndex (fit hs) - minIndex (fit hs))).
  intros s Hs.
  pose proof (Hybrid_body_spec unrepresentable values searchValue
                values_max s Hs) as Hb.
  split; [destruct Hs; lia|].
  destruct (Hybrid_body unrepresentable values searchValue s); simpl in Hb.
  - destruct Hb as ((? & ? & ? & ? & ?) & _). auto.
  - apply Hb.
Qed.

Lemma LineFit_spec :
  bracket_post values searchValue
    (TestList_LineFit unrepresentable values searchValue).
Proof.
  unfold TestList_LineFit.
  apply (prologue_spec
           (fun min max =>
              loop (LineFit_body unrepresentable values searchValue)
                   (length values) (fit_init values min max))).
  intros min max Hmin Hmax Hlt.
  destruct (fit_init_inv min max Hmin Hmax Hlt) as (Hinv & H0 & H1).
  apply LineFit_loop_spec; [exact Hinv|].
  rewrite H0, H1. unfold size. lia.
Qed.

Lemma HybridSearch_spec :
  bracket_post values searchValue
    (TestList_HybridSearch unrepresentable values searchValue).
Proof.
  unfold TestList_HybridSearch.
  apply (prologue_spec
           (fun min max =>
              loop (Hybrid_body unrepresentable values searchValue)
                   (length values) (Hybrid_init values min max))).
  intros min max Hmin Hmax Hlt.
  destruct (fit_init_inv min max Hmin Hmax Hlt) as (Hinv & H0 & H1).
  apply Hybrid_loop_spec; [exact Hinv|].
  unfold Hybrid_init; simpl fit. rewrite H0, H1. unfold size. lia.
Qed.

Lemma LineFitBlind_result :
  exists ret,
    TestList_LineFit unrepresentable values searchValue =
      mkRun (reads (TestList_LineFit unrepresentable values searchValue))
            (Returned ret) /\
    0 <= guesses ret <= size values /\
    TestList_LineFitBlind unrepresentable values searchValue =
      mkRun (reads (TestList_LineFit unrepresentable values searchValue))
            (Returned (mkTestResults (found ret) (index ret)
                         (guesses ret + 2))).
Proof.
  destruct LineFit_spec as (ret & Hret & _ & Hg & _).
  pose proof values_max as Hm. rewrite vector_max_size_eq in Hm.
  exists ret. unfold TestList_LineFitBlind.
  destruct (TestList_LineFit unrepresentable values searchValue) as [rds res].
  simpl in *. subst res. unwrap. auto.
Qed.

End WholeFunctions.

Lemma bracket_search_post (values : list Z) (searchValue : Z) (r : run) :
  bracket_post values searchValue r -> search_post values searchValue r.
Proof.
  intros (ret & Hret & Hrd & _ & Hf & _ & Hs). exists ret. auto.
Qed.

Lemma linear_search_post (values : list Z) (searchValue : Z) (r : run) :
  linear_post values searchValue r -> search_post values searchValue r.
Proof.
  intros (fnd & p & g & Hret & Hp & Hrd & Hlt & Hcases).
  exists (mkTestResults fnd (Some p) g). simpl.
  split; [exact Hret|]. split; [exact Hrd|]. split.
  - intros ->. exists p. split; [reflexivity|].
    destruct Hcases as [(_ & H & _)|[(H & _)|(H & _)]];
      [exact H | discriminate | discriminate].
  - intros Hs Hin. apply In_read in Hin as [j Hj].
    pose proof (read_in_bounds _ _ _ Hj) as Hb.
    destruct Hcases as [(H & _)|[(_ & (v & Hv & Hgt) & _)|(_ & Hend & _)]].
    + exact H.
    + exfalso. destruct (Z_lt_le_dec j p) as [Hjp|Hpj].
      * destruct (Hlt j) as (w & Hw & Hwlt); [lia|].
        rewrite Hj in Hw. inversion Hw. lia.
      * pose proof (sorted_read values p j v searchValue Hs Hpj Hv Hj). lia.
    + exfalso. destruct (Hlt j) as (w & Hw & Hwlt); [lia|].
      rewrite Hj in Hw. inversion Hw. lia.
Qed.

Lemma TestFns_spec (unrepresentable : F32.float -> Z) (s : strategy)
    (values : list Z) (searchValue : Z) :
  values <> [] -> size values <= vector_max_size ->
  search_post values searchValue (TestFns unrepresentable s values searchValue).
Proof.
  intros Hne Hmax. destruct s; simpl.
  - apply linear_search_post. now apply LinearSearch_spec.
  - apply bracket_search_post. now apply LineFit_spec.
  - destruct (LineFitBlind_result unrepresentable values searchValue Hne Hmax)
      as (ret & Hrun & _ & Hblind).
    destruct (LineFit_spec unrepresentable values searchValue Hne Hmax)
      as (ret' & Hret & Hrd & _ & Hf & _ & Hs).
    rewrite Hrun in Hret. simpl in Hret. inversion Hret; subst ret'.
    rewrite Hblind.
    exists (mkTestResults (found ret) (index ret) (guesses ret + 2)). simpl.
    auto.
  - apply bracket_search_post. now apply BinarySearch_spec.
  - apply bracket_search_post. now apply HybridSearch_spec.
Qed.

(** * The properties of the strategies *)

(** C1. On a sorted, non-empty vector that holds the value searched for,
    each of the five strategies returns [found = true] and an index at
    which the vector holds that value. *)
Theorem strategies_find_present_values
    (unrepresentable : F32.float -> Z) (s : strategy)
    (values : list Z) (searchValue : Z) :
  values <> [] -> size values <= vector_max_size ->
  Sorted Z.le values -> In searchValue values ->
  exists ret p,
    result (TestFns unrepresentable s values searchValue) = Returned ret /\
    found ret = true /\
    index ret = Some p /\
    read values p = Some searchValue.
Proof.
  intros Hne Hmax Hsorted Hin.
  destruct (TestFns_spec unrepresentable s values searchValue Hne Hmax)
    as (ret & Hret & _ & Hfound & Hhit).
  specialize (Hhit Hsorted Hin). destruct (Hfound Hhit) as (p & Hp & Hv).
  exists ret, p. auto.
Qed.

(** C2. On a non-empty vector, the blind line fit returns the found flag
    and the index of the line fit, and two guesses more. *)
Theorem LineFitBlind_is_LineFit_plus_two
    (unrepresentable : F32.float -> Z) (values : list Z) (searchValue : Z) :
  values <> [] -> size values <= vector_max_size ->
  exists ret blind,
    result (TestList_LineFit unrepresentable values searchValue)
      = Returned ret /\
    result (TestList_LineFitBlind unrepresentable values searchValue)
      = Returned blind /\
    found blind = found ret /\
    index blind = index ret /\
    guesses blind = guesses ret + 2.
Proof.
  intros Hne Hmax.
  destruct (LineFitBlind_result unrepresentable values searchValue Hne Hmax)
    as (ret & Hrun & _ & Hblind).
  exists ret, (mkTestResults (found ret) (index ret) (guesses ret + 2)).
  rewrite Hblind. rewrite Hrun. simpl. auto.
Qed.

Lemma strategies_find_present_values_witness :
  exists ret p,
    result (TestFns (fun _ => 0) Hybrid [1; 3; 3; 3; 7] 3) = Returned ret /\
    found ret = true /\
    index ret = Some p /\
    read [1; 3; 3; 3; 7] p = Some 3.
Proof.
  apply strategies_find_present_values.
  - discriminate.
  - vm_compute. discriminate.
  - repeat constructor; lia.
  - simpl. auto.
Defined.

Lemma LineFitBlind_is_LineFit_plus_two_witness :
  exists ret blind,
    result (TestList_LineFit (fun _ => 0)
              [0; 10; 20; 30; 40; 50; 60; 70; 80; 90; 9000] 50)
      = Returned ret /\
    result (TestList_LineFitBlind (fun _ => 0)
              [0; 10; 20; 30; 40; 50; 60; 70; 80; 90; 9000] 50)
      = Returned blind /\
    found blind = found ret /\
    index blind = index ret /\
    guesses blind = guesses ret + 2.
Proof.
  apply LineFitBlind_is_LineFit_plus_two.
  - discriminate.
  - vm_compute. discriminate.
Defined.

(** C10. On a non-empty vector, sorted or not, each of the five strategies
    returns, and every index at which it read the vector is below the
    size of the vector. *)
Theorem strategies_read_in_bounds
    (unrepresentable : F32.float -> Z) (s : strategy)
    (values : list Z) (searchValue : Z) :
  values <> [] -> size values <= vector_max_size ->
  (exists ret,
     result (TestFns unrepresentable s values searchValue) = Returned ret) /\
  Forall (fun i => 0 <= i < size values)
         (reads (TestFns unrepresentable s values searchValue)).
Proof.
  intros Hne Hmax.
  destruct (TestFns_spec unrepresentable s values searchValue Hne Hmax)
    as (ret & Hret & Hrd & _).
  split; [exists ret; exact Hret | exact Hrd].
Qed.

Lemma strategies_read_in_bounds_witness :
  (exists ret,
     result (TestFns (fun _ => 0) LineFit [1; 9; 0; 7; 3; 8] 5)
       = Returned ret) /\
  Forall (fun i => 0 <= i < size [1; 9; 0; 7; 3; 8])
         (reads (TestFns (fun _ => 0) LineFit [1; 9; 0; 7; 3; 8] 5)).
Proof.
  apply strategies_read_in_bounds.
  - discriminate.
  - vm_compute. discriminate.
Defined.

(** C6, as stated, does not hold.  A linear search that runs off the end
    of the vector returns the size of the vector, one past the position
    examined last; a binary search that does not find the value returns
    with [index] never assigned. *)
Lemma not_found_index_counterexample :
  ~ index_is_last_examined (TestList_LinearSearch [1; 2; 3] 5) /\
  ~ index_is_last_examined (TestList_BinarySearch [1; 2; 3] 5).
Proof.
  split; intros H.
  - specialize (H (mkTestResults false (Some 3) 3) eq_refl eq_refl).
    vm_compute in H. discriminate.
  - specialize (H (mkTestResults false None 2) eq_refl eq_refl).
    vm_compute in H. discriminate.
Qed.

(** C6, amended.  When the linear search returns [found = false] it has
    examined an element last, at position [p].  If that element is greater
    than the value searched for, the index is [p]; otherwise the element
    is smaller, [p] is the last position of the vector and the index is
    the size of the vector, one past [p].  When one of the other four
    strategies returns [found = false], it has not assigned the index. *)
Theorem not_found_index
    (unrepresentable : F32.float -> Z) (values : list Z) (searchValue : Z) :
  values <> [] -> size values <= vector_max_size ->
  (forall ret,
     result (TestList_LinearSearch values searchValue) = Returned ret ->
     found ret = false ->
     exists p v,
       hd_error (reads (TestList_LinearSearch values searchValue)) = Some p /\
       read values p = Some v /\
       ((searchValue < v /\ index ret = Some p) \/
        (v < searchValue /\ p = size values - 1 /\
         index ret = Some (size values)))) /\
  (forall s ret,
     s <> LinearSearch ->
     result (TestFns unrepresentable s values searchValue) = Returned ret ->
     found ret = false ->
     index ret = None).
Proof.
  intros Hne Hmax. split.
  - intros ret Hret Hfound.
    destruct (LinearSearch_spec values searchValue Hmax)
      as (fnd & p & g & Hr & Hp & _ & Hbelow & Hcases).
    rewrite Hr in Hret. inversion Hret; subst ret. simpl in *. subst fnd.
    destruct Hcases as [(H & _)|[(_ & (v & Hv & Hgt) & Hhd & _)
                                |(_ & Hend & _ & Hhd)]].
    + discriminate.
    + exists p, v. split; [exact Hhd|]. split; [exact Hv|]. left. auto.
    + subst p. pose proof (size_pos values Hne) as Hpos.
      destruct (size values =? 0) eqn:E; [apply Z.eqb_eq in E; lia|].
      destruct (Hbelow (size values - 1)) as (v & Hv & Hlt); [lia|].
      exists (size values - 1), v.
      split; [exact Hhd|]. split; [exact Hv|]. right. auto.
  - intros s ret Hs Hret Hfound.
    assert (Hb : forall r ret0, bracket_post values searchValue r ->
                 result r = Returned ret0 -> found ret0 = false ->
                 index ret0 = None).
    { intros r ret0 (ret' & Hr & _ & _ & _ & Hnone & _) Hr' Hf.
      rewrite Hr in Hr'. inversion Hr'; subst ret'. auto. }
    destruct s; simpl in Hret.
    + congruence.
    + eapply Hb; [now apply LineFit_spec | exact Hret | exact Hfound].
    + destruct (LineFitBlind_result unrepresentable values searchValue
                  Hne Hmax) as (ret0 & Hrun & _ & Hblind).
      rewrite Hblind in Hret. simpl in Hret. inversion Hret; subst ret.
      simpl in *.
      eapply Hb; [now apply (LineFit_spec unrepresentable) | | exact Hfound].
      rewrite Hrun. reflexivity.
    + eapply Hb; [now apply BinarySearch_spec | exact Hret | exact Hfound].
    + eapply Hb; [now apply HybridSearch_spec | exact Hret | exact Hfound].
Qed.

Lemma not_found_index_witness :
  (forall ret,
     result (TestList_LinearSearch [1; 2; 9] 5) = Returned ret ->
     found ret = false ->
     exists p v,
       hd_error (reads (TestList_LinearSearch [1; 2; 9] 5)) = Some p /\
       read [1; 2; 9] p = Some v /\
       ((5 < v /\ index ret = Some p) \/
        (v < 5 /\ p = size [1; 2; 9] - 1 /\
         index ret = Some (size [1; 2; 9])))) /\
  (forall s ret,
     s <> LinearSearch ->
     result (TestFns (fun _ => 0) s [1; 2; 9] 5) = Returned ret ->
     found ret = false ->
     index ret = None).
Proof.
  apply not_found_index.
  - discriminate.
  - vm_compute. discriminate.
Defined.

(** C9. [VerifyResults] prints a failure exactly when the found flag of
    the result differs from that of the linear search, or both are found
    at different indices that hold different values; in particular it
    prints nothing for two different indices that hold equal values. *)
Theorem VerifyResults_reports_exactly_mismatches
    (values : list Z) (searchValue : Z) (result_ : TestResults)
    (list_name test : string) :
  size values <= vector_max_size ->
  (found result_ = true ->
   exists ri, index result_ = Some ri /\ 0 <= ri < size values) ->
  exists actual printed,
    result (TestList_LinearSearch values searchValue) = Returned actual /\
    VerifyResults values searchValue result_ list_name test = Some printed /\
    (printed <> None <->
     (found result_ <> found actual \/
      (found result_ = true /\ found actual = true /\
       exists ri ai x y,
         index result_ = Some ri /\ index actual = Some ai /\ ri <> ai /\
         read values ri = Some x /\ read values ai = Some y /\ x <> y))).
Proof.
  intros Hmax Hwf.
  destruct (LinearSearch_spec values searchValue Hmax)
    as (fnd & p & g & Hr & Hp & _ & _ & Hcases).
  exists (mkTestResults fnd (Some p) g). unfold VerifyResults. rewrite Hr.
  simpl found; simpl index.
  destruct (found result_) eqn:Ef; destruct fnd eqn:Efnd; simpl.
  - (* both found *)
    destruct (Hwf eq_refl) as (ri & Hri & Hb). rewrite Hri.
    destruct Hcases as [(_ & Hv & _)|[(H & _)|(H & _)]]; try discriminate.
    destruct (read_defined values ri Hb) as [x Hx].
    destruct (ri =? p) eqn:Eidx; simpl.
    + apply Z.eqb_eq in Eidx. subst ri. eexists. split; [reflexivity|].
      split; [reflexivity|]. split; [congruence|].
      intros [H|(_ & _ & ri & ai & x' & y' & H1 & H2 & H3 & _)];
        [congruence|]. inversion H1; inversion H2; subst. congruence.
    + apply Z.eqb_neq in Eidx. rewrite Hx, Hv.
      destruct (x =? searchValue) eqn:Ex; simpl.
      * apply Z.eqb_eq in Ex. subst x. eexists. split; [reflexivity|].
        split; [reflexivity|]. split; [congruence|].
        intros [H|(_ & _ & ri' & ai & x' & y' & H1 & H2 & _ & H4 & H5 & H6)];
          [congruence|]. inversion H1; inversion H2; subst.
        rewrite Hx in H4. rewrite Hv in H5. congruence.
      * apply Z.eqb_neq in Ex. eexists. split; [reflexivity|].
        split; [reflexivity|]. split; [|discriminate].
        intros _. right. split; [reflexivity|]. split; [reflexivity|].
        exists ri, p, x, searchValue. auto 10.
  - eexists. split; [reflexivity|]. split; [reflexivity|].
    split; [intros _; left; discriminate | discriminate].
  - eexists. split; [reflexivity|]. split; [reflexivity|].
    split; [intros _; left; discriminate | discriminate].
  - eexists. split; [reflexivity|]. split; [reflexivity|].
    split; [congruence|].
    intros [H|(H & _)]; congruence.
Qed.

Lemma VerifyResults_reports_exactly_mismatches_witness :
  exists actual printed,
    result (TestList_LinearSearch [1; 3; 3; 3; 7] 3) = Returned actual /\
    VerifyResults [1; 3; 3; 3; 7] 3 (mkTestResults true (Some 3) 2)
      "Linear" "Binary Search" = Some printed /\
    (printed <> None <->
     (found (mkTestResults true (Some 3) 2) <> found actual \/
      (found (mkTestResults true (Some 3) 2) = true /\ found actual = true /\
       exists ri ai x y,
         index (mkTestResults true (Some 3) 2) = Some ri /\
         index actual = Some ai /\ ri <> ai /\
         read [1; 3; 3; 3; 7] ri = Some x /\
         read [1; 3; 3; 3; 7] ai = Some y /\ x <> y))).
Proof.
  apply VerifyResults_reports_exactly_mismatches.
  - vm_compute. discriminate.
  - intros _. exists 3. split; [reflexivity | vm_compute; split; congruence].
Defined.

(** C4. In a binary search, an iteration that probes index 0 and finds a
    value above the one searched for returns [found = false] at once; and
    on a non-empty vector every iteration starts with
    [0 <= minIndex <= maxIndex < size], so that no decrement of [maxIndex]
    wraps around: when the probe is too high and the loop goes on, the
    probed index is at least 1 and the new [maxIndex] is that index minus
    one. *)
Theorem BinarySearch_no_underflow (values : list Z) (searchValue : Z) :
  values <> [] -> size values <= vector_max_size ->
  (forall st guess,
     BinarySearch_guessIndex st = 0 ->
     read values 0 = Some guess -> searchValue < guess ->
     exists rds ret,
       BinarySearch_body values searchValue st = Done (mkRun rds (Returned ret))
       /\ found ret = false) /\
  (forall k st,
     iteration (BinarySearch_body values searchValue) k
               (BinarySearch_init values) = Some st ->
     0 <= bin_minIndex st <= bin_maxIndex st /\
     bin_maxIndex st < size values /\
     exists guess,
       read values (BinarySearch_guessIndex st) = Some guess /\
       (searchValue < guess -> BinarySearch_guessIndex st <> 0 ->
        1 <= BinarySearch_guessIndex st /\
        BinarySearch_narrow st (BinarySearch_guessIndex st) guess searchValue
          = Some (bin_minIndex st, BinarySearch_guessIndex st - 1))).
Proof.
  intros Hne Hmax. split.
  - intros st guess Hg Hv Hgt. unfold BinarySearch_body. rewrite Hg, Hv.
    replace (guess =? searchValue) with false
      by (symmetry; apply Z.eqb_neq; lia).
    unfold BinarySearch_narrow.
    replace (guess <? searchValue) with false
      by (symmetry; apply Z.ltb_ge; lia).
    replace (guess >? searchValue) with true
      by (symmetry; apply Z.gtb_lt; lia).
    simpl. eauto.
  - intros k st Hk.
    assert (Hinv : binary_inv values searchValue st).
    { apply (iteration_rule (BinarySearch_body values searchValue)
               (fun _ st => binary_inv values searchValue st)
               (BinarySearch_init values)) with (k := k); auto.
      - now apply BinarySearch_init_inv.
      - intros k' s s' Hs Hstep.
        pose proof (BinarySearch_body_spec values searchValue s Hmax Hs)
          as [_ Hb].
        rewrite Hstep in Hb. apply Hb. }
    destruct (BinarySearch_guessIndex_mid values searchValue st Hmax Hinv)
      as [_ Hg].
    destruct Hinv as (Hb & Hsz & _).
    split; [exact Hb|]. split; [exact Hsz|].
    destruct (read_defined values (BinarySearch_guessIndex st)) as [guess Hv];
      [lia|].
    exists guess. split; [exact Hv|]. intros Hgt Hnz.
    split; [lia|]. unfold BinarySearch_narrow.
    replace (guess <? searchValue) with false
      by (symmetry; apply Z.ltb_ge; lia).
    replace (guess >? searchValue) with true
      by (symmetry; apply Z.gtb_lt; lia).
    replace (BinarySearch_guessIndex st =? 0) with false
      by (symmetry; apply Z.eqb_neq; lia).
    rewrite vector_max_size_eq in Hmax. unwrap. reflexivity.
Qed.

Lemma BinarySearch_no_underflow_witness :
  (forall st guess,
     BinarySearch_guessIndex st = 0 ->
     read [4; 5; 6] 0 = Some guess -> 2 < guess ->
     exists rds ret,
       BinarySearch_body [4; 5; 6] 2 st = Done (mkRun rds (Returned ret))
       /\ found ret = false) /\
  (forall k st,
     iteration (BinarySearch_body [4; 5; 6] 2) k
               (BinarySearch_init [4; 5; 6]) = Some st ->
     0 <= bin_minIndex st <= bin_maxIndex st /\
     bin_maxIndex st < size [4; 5; 6] /\
     exists guess,
       read [4; 5; 6] (BinarySearch_guessIndex st) = Some guess /\
       (2 < guess -> BinarySearch_guessIndex st <> 0 ->
        1 <= BinarySearch_guessIndex st /\
        BinarySearch_narrow st (BinarySearch_guessIndex st) guess 2
          = Some (bin_minIndex st, BinarySearch_guessIndex st - 1))).
Proof.
  apply BinarySearch_no_underflow.
  - discriminate.
  - vm_compute. discriminate.
Defined.

(** ** The iterations of the two interpolating loops *)

Section Iterations.

Variable unrepresentable : F32.float -> Z.
Variable values : list Z.
Variable searchValue : Z.
Variables min0 max0 : Z.
Hypothesis values_nonempty : values <> [].
Hypothesis values_max : size values <= vector_max_size.
Hypothesis read_min : read values 0 = Some min0.
Hypothesis read_max : read values (size values - 1) = Some max0.
Hypothesis entered : min0 < searchValue < max0.

Lemma LineFit_iteration_inv (k : nat) (st : FitState) :
  iteration (LineFit_body unrepresentable values searchValue) k
            (fit_init values min0 max0) = Some st ->
  fit_inv values searchValue st /\
  (k = O -> st = fit_init values min0 max0) /\
  (k <> O -> minIndex st + 1 < maxIndex st).
Proof.
  apply (iteration_rule (LineFit_body unrepresentable values searchValue)
           (fun k st =>
              fit_inv values searchValue st /\
              (k = O -> st = fit_init values min0 max0) /\
              (k <> O -> minIndex st + 1 < maxIndex st))).
  - split; [|split; [reflexivity | congruence]].
    now apply fit_init_inv.
  - intros k' s s' (Hs & _) Hstep.
    pose proof (LineFit_body_spec unrepresentable values searchValue
                  values_max s Hs) as Hb.
    rewrite Hstep in Hb. destruct Hb as (Hinv & _ & _ & _ & Hproper & _).
    split; [exact Hinv|]. split; [discriminate | intros _; exact Hproper].
Qed.

Lemma Hybrid_iteration_inv (k : nat) (hs : HybridState) :
  iteration (Hybrid_body unrepresentable values searchValue) k
            (Hybrid_init values min0 max0) = Some hs ->
  fit_inv values searchValue (fit hs) /\
  doBinaryStep hs = Nat.odd k /\
  line_fitted (fit hs).
Proof.
  apply (iteration_rule (Hybrid_body unrepresentable values searchValue)
           (fun k hs =>
              fit_inv values searchValue (fit hs) /\
              doBinaryStep hs = Nat.odd k /\
              line_fitted (fit hs))).
  - split; [|split; [reflexivity | split; reflexivity]].
    now apply fit_init_inv.
  - intros k' s s' (Hs & Hodd & _) Hstep.
    pose proof (Hybrid_body_spec unrepresentable values searchValue
                  values_max s Hs) as Hb.
    rewrite Hstep in Hb. destruct Hb as ((Hinv & _) & Htoggle).
    split; [exact Hinv|]. split.
    + rewrite Htoggle, Hodd, Nat.odd_succ. apply Nat.negb_odd.
    + revert Hstep. unfold Hybrid_body.
      destruct (read values (Hybrid_guessIndex _ _ _)) as [guess|];
        [|discriminate].
      destruct (guess =? searchValue); [discriminate|].
      destruct (guess <? searchValue);
        match goal with |- context [if ?c then _ else _] => destruct c end;
        try discriminate; intros H; inversion H; subst; split; reflexivity.
Qed.

End Iterations.

(** C3, as stated, does not hold.  On the two-element vector [1; 5] the
    search for 3 enters the loop with [minIndex = 0] and [maxIndex = 1]:
    [Clamp] is called with a lower bound above the upper bound and the
    iteration reads at an end of the bracket, not strictly inside it. *)
Lemma LineFit_probes_inside_counterexample :
  ~ LineFit_probes_inside (fun _ => 0) [1; 5] 3.
Proof.
  intros H.
  specialize (H 1 5 O (fit_init [1; 5] 1 5) eq_refl eq_refl).
  assert (Hlt : 1 < 3 < 5) by lia.
  specialize (H Hlt eq_refl). vm_compute in H.
  destruct H as [H _]. discriminate.
Qed.

(** C3, amended.  The line fit returns on every non-empty vector, after
    at most as many guesses as the vector has elements.  Every
    iteration of its loop starts with [minIndex + 1 < maxIndex], except
    the first one on a vector of two elements.  An iteration that starts
    with [minIndex + 1 < maxIndex] reads strictly inside the bracket; if
    the loop goes on, the new bracket lies within the old one, is strictly
    narrower and again has [minIndex + 1 < maxIndex]; if the iteration
    returns [found = false], the updated bracket has
    [minIndex + 1 >= maxIndex].  An iteration that starts with
    [minIndex + 1 >= maxIndex] reads at an end of the bracket and returns
    [found = false]. *)
Theorem LineFit_terminates_and_narrows
    (unrepresentable : F32.float -> Z) (values : list Z) (searchValue : Z) :
  values <> [] -> size values <= vector_max_size ->
  (exists ret,
     result (TestList_LineFit unrepresentable values searchValue)
       = Returned ret /\
     0 <= guesses ret <= size values) /\
  (forall min max k st,
     read values 0 = Some min -> read values (size values - 1) = Some max ->
     min < searchValue < max ->
     iteration (LineFit_body unrepresentable values searchValue) k
               (fit_init values min max) = Some st ->
     let p := LineFit_guessIndex unrepresentable searchValue st in
     (minIndex st + 1 < maxIndex st \/ (k = O /\ size values = 2)) /\
     (minIndex st + 1 < maxIndex st -> minIndex st < p < maxIndex st) /\
     (minIndex st + 1 >= maxIndex st ->
      (p = minIndex st \/ p = maxIndex st) /\
      exists r ret,
        LineFit_body unrepresentable values searchValue st = Done r /\
        result r = Returned ret /\ found ret = false) /\
     match LineFit_body unrepresentable values searchValue st with
     | Continue st' =>
         minIndex st <= minIndex st' /\ maxIndex st' <= maxIndex st /\
         maxIndex st' - minIndex st' < maxIndex st - minIndex st /\
         minIndex st' + 1 < maxIndex st'
     | Done r =>
         exists ret,
           result r = Returned ret /\
           (found ret = false ->
            exists guess,
              read values p = Some guess /\
              ((guess < searchValue /\ p + 1 >= maxIndex st) \/
               (searchValue < guess /\ minIndex st + 1 >= p)))
     end).
Proof.
  intros Hne Hmax. split.
  { destruct (LineFit_spec unrepresentable values searchValue Hne Hmax)
      as (ret & Hret & _ & Hg & _). exists ret. split; [exact Hret|exact Hg]. }
  intros min max k st Hmin Hmaxv Hlt Hk p.
  destruct (LineFit_iteration_inv unrepresentable values searchValue min max
              Hne Hmax Hmin Hmaxv Hlt k st Hk) as (Hinv & Hfirst & Hlater).
  pose proof (LineFit_body_spec unrepresentable values searchValue Hmax st
                Hinv) as Hb.
  fold p in Hb.
  destruct (clamped_in_bracket values searchValue Hmax st
              (lineGuess unrepresentable searchValue (m st) (b st)) Hinv)
    as [Hp Hstrict].
  change (Clamp _ _ _) with p in Hp, Hstrict.
  destruct (fit_init_inv values searchValue Hne Hmax min max Hmin Hmaxv Hlt)
    as (Hinit & Hmin0 & Hmax0).
  assert (Hbr : 0 <= minIndex st < maxIndex st) by (destruct Hinv; lia).
  split; [|split; [exact Hstrict|split]].
  - destruct k as [|k].
    + rewrite (Hfirst eq_refl), Hmin0, Hmax0 in *.
      destruct (Z_lt_le_dec (0 + 1) (size values - 1)); [left; lia|].
      right. split; [reflexivity | lia].
    + left. apply Hlater. discriminate.
  - intros Himproper.
    assert (Hk0 : k = O).
    { destruct k; [reflexivity|]. assert (S k <> O) by discriminate.
      specialize (Hlater H). lia. }
    specialize (Hfirst Hk0).
    assert (Hends : p = minIndex st \/ p = maxIndex st).
    { unfold p, LineFit_guessIndex. rewrite vector_max_size_eq in Hmax.
      pose proof (proj1 (proj2 Hinv)). unwrap.
      destruct (Clamp_cases (minIndex st + 1) (maxIndex st - 1)
                  (lineGuess unrepresentable searchValue (m st) (b st)))
        as [[? ->]|[(? & ? & ->)|[? ->]]]; lia. }
    split; [exact Hends|].
    destruct (LineFit_body unrepresentable values searchValue st) as [st'|r];
      simpl in Hb.
    + destruct Hb as (_ & _ & _ & _ & _ & Hproper). lia.
    + destruct Hb as ((ret & Hret & _ & _ & Hfound & _) & _ & Hidx & _).
      exists r, ret. split; [reflexivity|]. split; [exact Hret|].
      destruct (found ret) eqn:Ef; [exfalso | reflexivity].
      destruct (Hfound eq_refl) as (p' & Hp' & Hv).
      rewrite (Hidx ret Hret Ef) in Hp'. inversion Hp'; subst p'.
      rewrite Hfirst, Hmin0, Hmax0 in Hends.
      destruct Hends as [E|E]; rewrite E in Hv.
      * rewrite Hmin in Hv. inversion Hv. lia.
      * rewrite Hmaxv in Hv. inversion Hv. lia.
  - destruct (LineFit_body unrepresentable values searchValue st) as [st'|r];
      simpl in Hb.
    + destruct Hb as (_ & H1 & H2 & H3 & H4 & _). auto.
    + destruct Hb as ((ret & Hret & _) & _ & _ & Hmiss).
      exists ret. split; [exact Hret|]. intros Hf. exact (Hmiss ret Hret Hf).
Qed.

Lemma LineFit_terminates_and_narrows_witness :
  (exists ret,
     result (TestList_LineFit (fun _ => 0) [1; 5] 3) = Returned ret /\
     0 <= guesses ret <= size [1; 5]) /\
  (forall min max k st,
     read [1; 5] 0 = Some min -> read [1; 5] (size [1; 5] - 1) = Some max ->
     min < 3 < max ->
     iteration (LineFit_body (fun _ => 0) [1; 5] 3) k
               (fit_init [1; 5] min max) = Some st ->
     let p := LineFit_guessIndex (fun _ => 0) 3 st in
     (minIndex st + 1 < maxIndex st \/ (k = O /\ size [1; 5] = 2)) /\
     (minIndex st + 1 < maxIndex st -> minIndex st < p < maxIndex st) /\
     (minIndex st + 1 >= maxIndex st ->
      (p = minIndex st \/ p = maxIndex st) /\
      exists r ret,
        LineFit_body (fun _ => 0) [1; 5] 3 st = Done r /\
        result r = Returned ret /\ found ret = false) /\
     match LineFit_body (fun _ => 0) [1; 5] 3 st with
     | Continue st' =>
         minIndex st <= minIndex st' /\ maxIndex st' <= maxIndex st /\
         maxIndex st' - minIndex st' < maxIndex st - minIndex st /\
         minIndex st' + 1 < maxIndex st'
     | Done r =>
         exists ret,
           result r = Returned ret /\
           (found ret = false ->
            exists guess,
              read [1; 5] p = Some guess /\
              ((guess < 3 /\ p + 1 >= maxIndex st) \/
               (3 < guess /\ minIndex st + 1 >= p)))
     end).
Proof.
  apply LineFit_terminates_and_narrows.
  - discriminate.
  - vm_compute. discriminate.
Defined.

(** C5. In the hybrid search the choice of the probe is a plain toggle.
    Iteration [k] of the loop (counted from 0) runs with
    [doBinaryStep = true] exactly when [k] is odd, whatever the earlier
    iterations did to the bracket.  On an even iteration the index handed
    to [Clamp] is the guess of the line through the two ends of the
    bracket; on an odd one it is [(minIndex + maxIndex) / 2], which
    [Clamp] leaves as it is. *)
Theorem Hybrid_alternates
    (unrepresentable : F32.float -> Z) (values : list Z) (searchValue : Z)
    (min max : Z) :
  values <> [] -> size values <= vector_max_size ->
  read values 0 = Some min -> read values (size values - 1) = Some max ->
  min < searchValue < max ->
  forall k hs,
    iteration (Hybrid_body unrepresentable values searchValue) k
              (Hybrid_init values min max) = Some hs ->
    doBinaryStep hs = Nat.odd k /\
    line_fitted (fit hs) /\
    Hybrid_unclamped unrepresentable searchValue hs =
      (if Nat.odd k
       then (minIndex (fit hs) + maxIndex (fit hs)) / 2
       else lineGuess unrepresentable searchValue (m (fit hs)) (b (fit hs))) /\
    Hybrid_guessIndex unrepresentable searchValue hs =
      Clamp (minIndex (fit hs) + 1) (maxIndex (fit hs) - 1)
            (Hybrid_unclamped unrepresentable searchValue hs) /\
    (Nat.odd k = true ->
     Hybrid_guessIndex unrepresentable searchValue hs =
       (minIndex (fit hs) + maxIndex (fit hs)) / 2).
Proof.
  intros Hne Hmax Hmin Hmaxv Hlt k hs Hk.
  destruct (Hybrid_iteration_inv unrepresentable values searchValue min max
              Hne Hmax Hmin Hmaxv Hlt k hs Hk) as (Hinv & Hodd & Hline).
  assert (Hproper : k <> O -> minIndex (fit hs) + 1 < maxIndex (fit hs)).
  { destruct k as [|k]; [congruence|]. intros _.
    rewrite iteration_succ in Hk.
    destruct (iteration _ k _) as [hs0|] eqn:E0; [|discriminate].
    destruct (Hybrid_iteration_inv unrepresentable values searchValue min max
                Hne Hmax Hmin Hmaxv Hlt k hs0 E0) as (Hinv0 & _).
    pose proof (Hybrid_body_spec unrepresentable values searchValue Hmax hs0
                  Hinv0) as Hb.
    destruct (Hybrid_body unrepresentable values searchValue hs0) as [hs1|];
      [|discriminate].
    inversion Hk; subst hs1. destruct Hb as ((_ & _ & _ & _ & H & _) & _).
    exact H. }
  destruct Hinv as (Hbr & Hsz & _). rewrite vector_max_size_eq in Hmax.
  assert (Hraw : Hybrid_unclamped unrepresentable searchValue hs =
                 if Nat.odd k
                 then (minIndex (fit hs) + maxIndex (fit hs)) / 2
                 else lineGuess unrepresentable searchValue
                        (m (fit hs)) (b (fit hs))).
  { unfold Hybrid_unclamped. rewrite Hodd. destruct (Nat.odd k); [|reflexivity].
    unwrap. reflexivity. }
  assert (Hclamp : Hybrid_guessIndex unrepresentable searchValue hs =
                   Clamp (minIndex (fit hs) + 1) (maxIndex (fit hs) - 1)
                     (Hybrid_unclamped unrepresentable searchValue hs)).
  { unfold Hybrid_guessIndex. unwrap. reflexivity. }
  split; [exact Hodd|]. split; [exact Hline|]. split; [exact Hraw|].
  split; [exact Hclamp|].
  intros Ek. rewrite Hclamp, Hraw, Ek.
  assert (k <> O) by (intros ->; discriminate).
  specialize (Hproper H).
  assert (minIndex (fit hs) + 1 <= (minIndex (fit hs) + maxIndex (fit hs)) / 2)
    by (apply Z.div_le_lower_bound; lia).
  assert ((minIndex (fit hs) + maxIndex (fit hs)) / 2 <= maxIndex (fit hs) - 1)
    by (apply Z.div_le_upper_bound; lia).
  destruct (Clamp_cases (minIndex (fit hs) + 1) (maxIndex (fit hs) - 1)
              ((minIndex (fit hs) + maxIndex (fit hs)) / 2))
    as [[? ?]|[(? & ? & ?)|[? ?]]]; lia.
Qed.

Lemma Hybrid_alternates_witness :
  exists hs,
    iteration (Hybrid_body (fun _ => 0)
                 [0; 10; 20; 30; 40; 50; 60; 70; 80; 90; 9000] 50) 1
              (Hybrid_init [0; 10; 20; 30; 40; 50; 60; 70; 80; 90; 9000]
                 0 9000) = Some hs /\
    (doBinaryStep hs = Nat.odd 1 /\
     line_fitted (fit hs) /\
     Hybrid_unclamped (fun _ => 0) 50 hs =
       (if Nat.odd 1
        then (minIndex (fit hs) + maxIndex (fit hs)) / 2
        else lineGuess (fun _ => 0) 50 (m (fit hs)) (b (fit hs))) /\
     Hybrid_guessIndex (fun _ => 0) 50 hs =
       Clamp (minIndex (fit hs) + 1) (maxIndex (fit hs) - 1)
             (Hybrid_unclamped (fun _ => 0) 50 hs) /\
     (Nat.odd 1 = true ->
      Hybrid_guessIndex (fun _ => 0) 50 hs =
        (minIndex (fit hs) + maxIndex (fit hs)) / 2)).
Proof.
  eexists. split.
  - vm_compute. reflexivity.
  - apply (Hybrid_alternates (fun _ => 0)
             [0; 10; 20; 30; 40; 50; 60; 70; 80; 90; 9000] 50 0 9000).
    + discriminate.
    + vm_compute. discriminate.
    + reflexivity.
    + reflexivity.
    + lia.
    + vm_compute. reflexivity.
Defined.

(** * The generators *)

Lemma to_size_t_truncation (y : F32.float) (v : Z) :
  F32.to_size_t y = Some v ->
  is_truncation y v /\ 0 <= v < size_t.modulus.
Proof.
  destruct y as [s|s| |s m e]; unfold F32.to_size_t, is_truncation;
    try discriminate.
  - intros H; inversion H; subst. rewrite modulus_eq. lia.
  - destruct ((0 <=? F32.trunc s m e) && (F32.trunc s m e <? size_t.modulus))
      eqn:E; [|discriminate].
    intros H; inversion H; subst v. clear H.
    apply andb_true_iff in E as [E0 E1].
    apply Z.leb_le in E0. apply Z.ltb_lt in E1.
    split; [|lia]. revert E0 E1. unfold F32.trunc.
    assert (Hm : 0 < Z.pos m) by lia. revert Hm. generalize (Z.pos m) as n.
    intros n Hn.
    destruct (Z.leb_spec 0 e) as [He|He].
    + rewrite Z.max_l by lia. rewrite Z.max_r by lia.
      assert (0 < 2 ^ e) by (apply Z.pow_pos_nonneg; lia).
      change (2 ^ 0) with 1.
      destruct s; intros; nia.
    + rewrite Z.max_r by lia. rewrite Z.max_l by lia.
      assert (Hd : 0 < 2 ^ (- e)) by (apply Z.pow_pos_nonneg; lia).
      change (2 ^ 0) with 1. rewrite Z.mul_1_r.
      pose proof (Z.mul_div_le n (2 ^ (- e)) Hd).
      pose proof (Z.mul_succ_div_gt n (2 ^ (- e)) Hd).
      assert (0 <= n / 2 ^ (- e)) by (apply Z.div_pos; lia).
      destruct s; intros.
      * assert (E : n / 2 ^ (- e) = 0) by lia. split; [lia|].
        rewrite E in H0. lia.
      * nia.
Qed.

Lemma stored_Forall2 (elements : list (option Z)) (l : list Z) :
  stored elements = Some l -> Forall2 (fun o v => o = Some v) elements l.
Proof.
  revert l. induction elements as [|[v|] rest IH]; simpl; intros l H.
  - inversion H. constructor.
  - destruct (stored rest) as [l'|]; [|discriminate].
    inversion H; subst. constructor; auto.
  - discriminate.
Qed.

Lemma Sorted_leb_le (l : list Z) :
  Sorted (fun x y => is_true (x <=? y)) l -> Sorted Z.le l.
Proof.
  induction 1 as [|a l Hl IH Ha]; constructor; auto.
  destruct Ha; constructor. now apply Z.leb_le.
Qed.

Lemma indices_length (count : Z) :
  Z.of_nat (length (indices count)) = Z.max 0 count.
Proof. unfold indices. rewrite length_map, length_seq. lia. Qed.

Lemma Forall2_map_stored (f : Z -> F32.float) (idx : list Z) (l : list Z) :
  Forall2 (fun o v => o = Some v) (map (fun i => F32.to_size_t (f i)) idx) l ->
  Forall2 (fun i v => is_truncation (f i) v) idx l.
Proof.
  revert l. induction idx as [|i idx IH]; simpl; intros l H.
  - inversion H. constructor.
  - inversion H as [|o v rest l' Ho Hrest]; subst. constructor.
    + now apply to_size_t_truncation.
    + now apply IH.
Qed.

(** Whenever the logarithmic generator stores no undefined value, its
    sequence has [count] elements, is sorted in ascending order and holds,
    up to the order, the integer parts (not the roundings) of the floats
    [y] that the loop computes for the indices [0 .. count - 1]. *)
Lemma MakeList_Log_stores_truncations (logf : F32.float -> F32.float)
    (count : Z) (l : list Z) :
  MakeList_Log logf count = Some l ->
  Z.of_nat (length l) = Z.max 0 count /\
  Sorted Z.le l /\
  exists elements,
    Permutation elements l /\
    Forall2 (fun index v =>
               is_truncation (Log_y logf (Log_maxValue logf count) index) v)
            (indices count) elements.
Proof.
  unfold MakeList_Log.
  destruct (stored _) as [elements|] eqn:E; [|discriminate].
  simpl. intros H; inversion H; subst l. clear H.
  apply stored_Forall2 in E. apply Forall2_map_stored in E.
  pose proof (ZSort.Permuted_sort elements) as Hperm.
  split; [|split].
  - rewrite <- (Permutation_length Hperm), <- (Forall2_length E).
    apply indices_length.
  - apply Sorted_leb_le. apply ZSort.Sorted_sort.
  - exists elements. split; [exact Hperm | exact E].
Qed.

(** C7 fails on the code.  [MakeList_Log] divides by [log(float(count))],
    not by the logarithm of [count + 1], and has no guard for a count of
    one.  The three hypotheses give the single-precision logarithm at 1, 2
    and 3, correctly rounded.

    For a count of one the divisor is [log(1) = 0]: [y] is [log(2) / 0],
    an infinity, and the conversion of [y] to [size_t] is undefined; that
    is what the only element of the vector gets.

    For a count of two the divisor is [log(2)]: the generator stores [2000]
    and [3169], the second one above [c_maxValue], where the description
    gives [1262] and [2000]. *)
Theorem MakeList_Log_divides_by_log_of_count (logf : F32.float -> F32.float) :
  logf (F32.of_Z 1) = S754_zero false ->
  logf (F32.of_Z 2) = S754_finite false 11629080 (-24) ->
  logf (F32.of_Z 3) = S754_finite false 9215828 (-23) ->
  (Log_maxValue logf 1 = S754_zero false /\
   Log_y logf (Log_maxValue logf 1) 0 = S754_infinity false /\
   F32.to_size_t (Log_y logf (Log_maxValue logf 1) 0) = None /\
   MakeList_Log logf 1 = None) /\
  (Log_maxValue logf 2 = logf (F32.of_Z 2) /\
   MakeList_Log logf 2 = Some [2000; 3169] /\
   c_maxValue < 3169 /\
   Log_described logf 2 0 = Some 1262 /\
   Log_described logf 2 1 = Some 2000).
Proof.
  intros H1 H2 H3.
  assert (E2 : F32.add (F32.of_Z (size_t.add 0 1)) (F32.of_Z 1) = F32.of_Z 2)
    by (vm_compute; reflexivity).
  assert (E3 : F32.add (F32.of_Z (size_t.add 1 1)) (F32.of_Z 1) = F32.of_Z 3)
    by (vm_compute; reflexivity).
  assert (Hy : Log_y logf (Log_maxValue logf 1) 0 = S754_infinity false).
  { unfold Log_y, Log_maxValue. rewrite E2, H1, H2. vm_compute. reflexivity. }
  split; [split; [exact H1|]; split; [exact Hy|]; split|].
  - rewrite Hy. reflexivity.
  - unfold MakeList_Log. change (indices 1) with [0]. cbn [map].
    rewrite Hy. reflexivity.
  - split; [reflexivity|]. split; [|split; [reflexivity|split]].
    + unfold MakeList_Log, Log_maxValue. change (indices 2) with [0; 1].
      cbn [map]. unfold Log_y. rewrite E2, E3, H2, H3.
      vm_compute. reflexivity.
    + unfold Log_described. change (F32.of_Z (0 + 2)) with (F32.of_Z 2).
      change (F32.of_Z (2 + 1)) with (F32.of_Z 3). rewrite H2, H3.
      vm_compute. reflexivity.
    + unfold Log_described. change (F32.of_Z (1 + 2)) with (F32.of_Z 3).
      change (F32.of_Z (2 + 1)) with (F32.of_Z 3). rewrite H3.
      vm_compute. reflexivity.
Qed.

Lemma MakeList_Log_divides_by_log_of_count_witness :
  (Log_maxValue logf_1_2_3 1 = S754_zero false /\
   Log_y logf_1_2_3 (Log_maxValue logf_1_2_3 1) 0 = S754_infinity false /\
   F32.to_size_t (Log_y logf_1_2_3 (Log_maxValue logf_1_2_3 1) 0) = None /\
   MakeList_Log logf_1_2_3 1 = None) /\
  (Log_maxValue logf_1_2_3 2 = logf_1_2_3 (F32.of_Z 2) /\
   MakeList_Log logf_1_2_3 2 = Some [2000; 3169] /\
   c_maxValue < 3169 /\
   Log_described logf_1_2_3 2 0 = Some 1262 /\
   Log_described logf_1_2_3 2 1 = Some 2000).
Proof.
  apply (MakeList_Log_divides_by_log_of_count logf_1_2_3); reflexivity.
Defined.

(** C8 fails on the code.  [MakeList_Linear] has no guard for a count of
    one: [float(count - 1)] is zero, [x] is 0/0, a NaN, and so is [y];
    the conversion of [y] to [size_t] is undefined, and that is what the
    only element of the vector gets. *)
Theorem MakeList_Linear_one_is_undefined :
  F32.of_Z (size_t.sub 1 1) = S754_zero false /\
  Linear_x 1 0 = S754_nan /\
  Linear_y 1 0 = S754_nan /\
  F32.to_size_t (Linear_y 1 0) = None /\
  MakeList_Linear 1 = None.
Proof. repeat split; vm_compute; reflexivity. Qed.

(** * The scenarios of the description, evaluated *)

Example scenario_ten_elements :
  result (TestList_BinarySearch [0; 1; 2; 3; 4; 5; 6; 7; 8; 9] 7)
    = Returned (mkTestResults true (Some 7) 2) /\
  result (TestList_LinearSearch [0; 1; 2; 3; 4; 5; 6; 7; 8; 9] 7)
    = Returned (mkTestResults true (Some 7) 8).
Proof. split; vm_compute; reflexivity. Qed.

Example scenario_outlier :
  let values := [0; 10; 20; 30; 40; 50; 60; 70; 80; 90; 9000] in
  result (TestList_LineFit (fun _ => 0) values 50)
    = Returned (mkTestResults true (Some 5) 5) /\
  result (TestList_BinarySearch values 50)
    = Returned (mkTestResults true (Some 5) 1) /\
  result (TestList_HybridSearch (fun _ => 0) values 50)
    = Returned (mkTestResults true (Some 5) 2).
Proof. repeat split; vm_compute; reflexivity. Qed.

Example scenario_single_element :
  forall s,
    result (TestFns (fun _ => 0) s [5] 5)
    = Returned (mkTestResults true (Some 0)
                  match s with
                  | LinearSearch | BinarySearch => 1
                  | LineFit | Hybrid => 0
                  | LineFitBlind => 2
                  end).
Proof. intros s; destruct s; vm_compute; reflexivity. Qed.

Example scenario_duplicates :
  forall i, In i [1; 2; 3] ->
    VerifyResults [1; 3; 3; 3; 7] 3 (mkTestResults true (Some i) 1)
      "Linear" "Binary Search" = Some None.
Proof.
  intros i [<-|[<-|[<-|[]]]]; vm_compute; reflexivity.
Qed.

(** Where the conversion of the guess to [size_t] is undefined.  The three
    values below all convert to the float 2^40: the slope [m] is zero, the
    guess is 0/0, a NaN, and [size_t(NaN)] has no defined value.  [Clamp]
    makes the probe 1 whatever the conversion leaves. *)
Example guess_not_representable :
  let values := [1099511627776; 1099511627777; 1099511627778] in
  let st := fit_init values 1099511627776 1099511627778 in
  m st = S754_zero false /\
  F32.to_size_t
    (F32.add F32.half
       (F32.div (F32.sub (F32.of_Z 1099511627777) (b st)) (m st))) = None /\
  forall unrepresentable,
    LineFit_guessIndex unrepresentable 1099511627777 st = 1 /\
    result (TestList_LineFit unrepresentable values 1099511627777)
      = Returned (mkTestResults true (Some 1) 1).
Proof.
  intros values st. split; [vm_compute; reflexivity|].
  split; [vm_compute; reflexivity|].
  intros unrepresentable.
  assert (Hg : LineFit_guessIndex unrepresentable 1099511627777 st = 1).
  { unfold LineFit_guessIndex.
    change (size_t.add (minIndex st) 1) with 1.
    change (size_t.sub (maxIndex st) 1) with 1.
    destruct (Clamp_cases 1 1
                (lineGuess unrepresentable 1099511627777 (m st) (b st)))
      as [[? ->]|[(? & ? & ->)|[? ->]]]; lia. }
  split; [exact Hg|].
  assert (Hbody : LineFit_body unrepresentable values 1099511627777 st =
                  Done (mkRun [1; 2; 0]
                          (Returned (mkTestResults true (Some 1) 1)))).
  { unfold LineFit_body. rewrite Hg. reflexivity. }
  unfold TestList_LineFit.
  change (read values 0) with (Some 1099511627776).
  change (read values (size_t.sub (size values) 1))
    with (Some 1099511627778).
  cbv beta iota zeta.
  change ((1099511627777 <? 1099511627776)
          || (1099511627777 >? 1099511627778)) with false.
  change (1099511627777 =? 1099511627776) with false.
  change (1099511627777 =? 1099511627778) with false.
  cbv iota. fold st. change (length values) with 3%nat.
  rewrite loop_succ, Hbody. reflexivity.
Qed.

Example MakeList_Linear_two_and_eleven :
  MakeList_Linear 2 = Some [0; 2000] /\
  MakeList_Linear 11
    = Some [0; 200; 400; 600; 800; 1000; 1200; 1400; 1600; 1800; 2000].
Proof. split; vm_compute; reflexivity. Qed.

(** * Further properties of the code *)

(** ** What the strategies return on any vector *)

Lemma read_In (values : list Z) (i v : Z) :
  read values i = Some v -> In v values.
Proof.
  unfold read. destruct ((0 <=? i) && (i <? size values)); [|discriminate].
  apply nth_error_In.
Qed.

(** X1. On a non-empty vector, sorted or not, a strategy that returns
    [found = true] returns an index at which the vector holds the value
    searched for; so a value that is not in the vector is never found. *)
Theorem found_results_are_right
    (unrepresentable : F32.float -> Z) (s : strategy)
    (values : list Z) (searchValue : Z) :
  values <> [] -> size values <= vector_max_size ->
  exists ret,
    result (TestFns unrepresentable s values searchValue) = Returned ret /\
    (found ret = true ->
     exists p, index ret = Some p /\ read values p = Some searchValue) /\
    (~ In searchValue values -> found ret = false).
Proof.
  intros Hne Hmax.
  destruct (TestFns_spec unrepresentable s values searchValue Hne Hmax)
    as (ret & Hret & _ & Hfound & _).
  exists ret. split; [exact Hret|]. split; [exact Hfound|].
  intros Hnot. destruct (found ret) eqn:E; [|reflexivity].
  destruct (Hfound eq_refl) as (p & _ & Hp). apply read_In in Hp. tauto.
Qed.

Lemma found_results_are_right_witness :
  exists ret,
    result (TestFns (fun _ => 0) Hybrid [1; 9; 0; 7; 3; 8] 5) = Returned ret /\
    (found ret = true ->
     exists p, index ret = Some p /\ read [1; 9; 0; 7; 3; 8] p = Some 5) /\
    (~ In 5 [1; 9; 0; 7; 3; 8] -> found ret = false).
Proof.
  apply found_results_are_right.
  - discriminate.
  - vm_compute. discriminate.
Defined.

(** ** Linear search *)

Lemma indices_succ (n : Z) : 0 <= n -> indices (n + 1) = indices n ++ [n].
Proof.
  intros Hn. unfold indices.
  replace (Z.to_nat (n + 1)) with (Datatypes.S (Z.to_nat n)) by lia.
  rewrite seq_S, map_app. simpl. rewrite Z2Nat.id by lia. reflexivity.
Qed.

Lemma indices_length_nat (n : Z) : length (indices n) = Z.to_nat n.
Proof. unfold indices. now rewrite length_map, length_seq. Qed.

(** The linear search reads the elements in the order of the vector, one
    for each guess. *)
Lemma LinearSearch_trace (values : list Z) (searchValue : Z) :
  size values <= vector_max_size ->
  linear_post values searchValue (TestList_LinearSearch values searchValue) /\
  exists ret,
    result (TestList_LinearSearch values searchValue) = Returned ret /\
    reads (TestList_LinearSearch values searchValue)
      = rev (indices (guesses ret)).
Proof.
  intros Hmax. unfold TestList_LinearSearch.
  apply (loop_rule (LinearSearch_body values searchValue)
           (fun st => linear_inv values searchValue st /\
                      lin_reads st = rev (indices (lin_index st)))
           (fun st => size values - lin_index st)
           (fun r => linear_post values searchValue r /\
                     exists ret, result r = Returned ret /\
                                 reads r = rev (indices (guesses ret)))).
  - intros st [Hinv Htr].
    destruct (LinearSearch_body_spec values searchValue st Hmax Hinv)
      as [H0 Hb].
    split; [exact H0|].
    destruct Hinv as (_ & Hidx & Hg & _).
    rewrite vector_max_size_eq in Hmax.
    assert (Hsucc : lin_index st :: rev (indices (lin_index st))
                    = rev (indices (lin_index st + 1))).
    { rewrite indices_succ by lia. rewrite rev_app_distr. reflexivity. }
    revert Hb. unfold LinearSearch_body.
    destruct (size values <=? lin_index st) eqn:E.
    { intros Hb. split; [exact Hb|]. eexists. split; [reflexivity|].
      simpl. rewrite Hg. exact Htr. }
    apply Z.leb_gt in E.
    destruct (read values (lin_index st)) as [value|].
    2:{ intros (? & ? & ? & Hbad & _). discriminate. }
    unwrap. rewrite Hg, Htr, Hsucc.
    destruct (value =? searchValue).
    { intros Hb. split; [exact Hb|]. eexists. split; reflexivity. }
    destruct (value >? searchValue).
    { intros Hb. split; [exact Hb|]. eexists. split; reflexivity. }
    intros [Hinv' Hlt]. split; [|exact Hlt]. split; [exact Hinv'|].
    reflexivity.
  - split; [|reflexivity].
    unfold linear_inv, LinearSearch_init; simpl.
    pose proof (size_nonneg values). repeat split; auto; try lia.
  - simpl lin_index. unfold size. lia.
Qed.

(** X2. The linear search stops at the first element that is not below
    the value searched for.  On any vector it returns an index [p] with
    every element before [p] below the value; it reports [found] exactly
    when the element at [p] is the value; and it has read the elements
    [0 .. guesses - 1] in this order, [p + 1] of them when it stopped on
    an element and [p], all of them, when it ran off the end. *)
Theorem LinearSearch_stops_at_first_not_below
    (values : list Z) (searchValue : Z) :
  size values <= vector_max_size ->
  exists ret p,
    result (TestList_LinearSearch values searchValue) = Returned ret /\
    index ret = Some p /\ 0 <= p <= size values /\
    (forall i, 0 <= i < p ->
       exists v, read values i = Some v /\ v < searchValue) /\
    (p < size values ->
       exists v, read values p = Some v /\ searchValue <= v /\
                 found ret = (v =? searchValue) /\ guesses ret = p + 1) /\
    (p = size values -> found ret = false /\ guesses ret = p) /\
    rev (reads (TestList_LinearSearch values searchValue))
      = indices (guesses ret).
Proof.
  intros Hmax.
  destruct (LinearSearch_trace values searchValue Hmax)
    as [(fnd & p & g & Hr & Hp & _ & Hlt & Hcases) (ret & Hret & Htr)].
  rewrite Hr in Hret. inversion Hret; subst ret. clear Hret.
  exists (mkTestResults fnd (Some p) g), p. simpl in *.
  split; [exact Hr|]. split; [reflexivity|]. split; [exact Hp|].
  split; [exact Hlt|]. split; [|split].
  - intros Hin.
    destruct Hcases as [(-> & Hv & _ & ->)|[(-> & (v & Hv & Hgt) & _ & ->)
                                           |(_ & Hend & _)]].
    + exists searchValue. rewrite Z.eqb_refl. repeat split; auto. lia.
    + exists v. replace (v =? searchValue) with false
        by (symmetry; apply Z.eqb_neq; lia).
      repeat split; auto. lia.
    + lia.
  - intros Hend.
    destruct Hcases as [(_ & Hv & _)|[(_ & (v & Hv & _) & _)
                                     |(-> & _ & -> & _)]].
    + apply read_in_bounds in Hv. lia.
    + apply read_in_bounds in Hv. lia.
    + auto.
  - rewrite Htr. apply rev_involutive.
Qed.

Lemma LinearSearch_stops_at_first_not_below_witness :
  exists ret p,
    result (TestList_LinearSearch [4; 1; 9; 2] 5) = Returned ret /\
    index ret = Some p /\ 0 <= p <= size [4; 1; 9; 2] /\
    (forall i, 0 <= i < p ->
       exists v, read [4; 1; 9; 2] i = Some v /\ v < 5) /\
    (p < size [4; 1; 9; 2] ->
       exists v, read [4; 1; 9; 2] p = Some v /\ 5 <= v /\
                 found ret = (v =? 5) /\ guesses ret = p + 1) /\
    (p = size [4; 1; 9; 2] -> found ret = false /\ guesses ret = p) /\
    rev (reads (TestList_LinearSearch [4; 1; 9; 2] 5))
      = indices (guesses ret).
Proof.
  apply LinearSearch_stops_at_first_not_below.
  vm_compute. discriminate.
Defined.

(** ** Verification *)

(** On a sorted vector the linear search finds exactly the values that are
    in the vector. *)
Lemma LinearSearch_sorted (values : list Z) (searchValue : Z) :
  size values <= vector_max_size -> Sorted Z.le values ->
  exists fnd p g,
    result (TestList_LinearSearch values searchValue)
      = Returned (mkTestResults fnd (Some p) g) /\
    (fnd = true <-> In searchValue values) /\
    (fnd = true -> read values p = Some searchValue).
Proof.
  intros Hmax Hs.
  pose proof (LinearSearch_spec values searchValue Hmax) as Hpost.
  destruct (linear_search_post _ _ _ Hpost)
    as (ret & Hret & _ & Hfound & Hhit).
  destruct Hpost as (fnd & p & g & Hr & _).
  rewrite Hr in Hret. inversion Hret; subst ret. simpl in *.
  exists fnd, p, g. split; [exact Hr|]. split; [split|].
  - intros Hf. destruct (Hfound Hf) as (p' & _ & Hp'). eapply read_In; eauto.
  - intros Hin. auto.
  - intros Hf. destruct (Hfound Hf) as (p' & Hp' & Hv).
    inversion Hp'; subst. exact Hv.
Qed.

Lemma verify_sorted (values : list Z) (searchValue : Z) (result_ : TestResults)
    (list_name test : string) :
  size values <= vector_max_size -> Sorted Z.le values ->
  (found result_ = true ->
   exists ri, index result_ = Some ri /\ 0 <= ri < size values) ->
  exists printed,
    VerifyResults values searchValue result_ list_name test = Some printed /\
    (printed = None <->
     ((found result_ = true <-> In searchValue values) /\
      (found result_ = true ->
       exists ri, index result_ = Some ri /\
                  read values ri = Some searchValue))).
Proof.
  intros Hmax Hs Hwf.
  destruct (LinearSearch_sorted values searchValue Hmax Hs)
    as (fnd & p & g & Hr & Hiff & Hp).
  unfold VerifyResults. rewrite Hr. simpl found; simpl index.
  destruct (found result_) eqn:Ef; destruct fnd eqn:Efnd; simpl.
  - destruct (Hwf eq_refl) as (ri & Hri & Hb). rewrite Hri.
    specialize (Hp eq_refl).
    destruct (read_defined values ri Hb) as [x Hx].
    destruct (ri =? p) eqn:Eidx; simpl.
    + apply Z.eqb_eq in Eidx. subst ri. eexists. split; [reflexivity|].
      split; [intros _|reflexivity]. split; [tauto|].
      intros _. exists p. auto.
    + rewrite Hx, Hp. destruct (x =? searchValue) eqn:Ex; simpl.
      * apply Z.eqb_eq in Ex. subst x. eexists. split; [reflexivity|].
        split; [intros _|reflexivity]. split; [tauto|].
        intros _. exists ri. auto.
      * apply Z.eqb_neq in Ex. eexists. split; [reflexivity|].
        split; [discriminate|]. intros [_ H].
        destruct (H eq_refl) as (ri' & Hri' & Hv). inversion Hri'; subst ri'.
        rewrite Hx in Hv. congruence.
  - eexists. split; [reflexivity|]. split; [discriminate|].
    intros [H _]. exfalso.
    assert (false = true) by (apply Hiff, H; reflexivity). discriminate.
  - eexists. split; [reflexivity|]. split; [discriminate|].
    intros [H _]. exfalso.
    assert (false = true) by (apply H, Hiff; reflexivity). discriminate.
  - eexists. split; [reflexivity|]. split; [intros _|reflexivity].
    split; [|discriminate]. split; [discriminate|].
    intros Hin. apply Hiff. exact Hin.
Qed.

(** X3. On a sorted vector [VerifyResults] prints nothing exactly for the
    right results: those whose found flag says whether the value is in
    the vector and whose index, when found, holds the value. *)
Theorem VerifyResults_accepts_exactly_right_results
    (values : list Z) (searchValue : Z) (result_ : TestResults)
    (list_name test : string) :
  size values <= vector_max_size -> Sorted Z.le values ->
  (found result_ = true ->
   exists ri, index result_ = Some ri /\ 0 <= ri < size values) ->
  exists printed,
    VerifyResults values searchValue result_ list_name test = Some printed /\
    (printed = None <->
     ((found result_ = true <-> In searchValue values) /\
      (found result_ = true ->
       exists ri, index result_ = Some ri /\
                  read values ri = Some searchValue))).
Proof. apply verify_sorted. Qed.

Lemma VerifyResults_accepts_exactly_right_results_witness :
  exists printed,
    VerifyResults [1; 3; 3; 3; 7] 3 (mkTestResults true (Some 4) 2)
      "Linear" "Hybrid" = Some printed /\
    (printed = None <->
     ((found (mkTestResults true (Some 4) 2) = true <-> In 3 [1; 3; 3; 3; 7])
      /\
      (found (mkTestResults true (Some 4) 2) = true ->
       exists ri, index (mkTestResults true (Some 4) 2) = Some ri /\
                  read [1; 3; 3; 3; 7] ri = Some 3))).
Proof.
  apply VerifyResults_accepts_exactly_right_results.
  - vm_compute. discriminate.
  - repeat constructor; lia.
  - intros _. exists 4. split; [reflexivity | vm_compute; split; congruence].
Defined.

Lemma trial_sorted (unrepresentable : F32.float -> Z) (s : strategy)
    (values : list Z) (searchValue : Z) (list_name test : string) :
  values <> [] -> size values <= vector_max_size -> Sorted Z.le values ->
  main_trial unrepresentable s values searchValue list_name test = Some None.
Proof.
  intros Hne Hmax Hs. unfold main_trial.
  destruct (TestFns_spec unrepresentable s values searchValue Hne Hmax)
    as (ret & Hret & _ & Hfound & Hhit).
  rewrite Hret.
  destruct (verify_sorted values searchValue ret list_name test Hmax Hs)
    as (printed & Hv & Hiff).
  { intros Hf. destruct (Hfound Hf) as (p & Hp & Hr). exists p.
    split; [exact Hp|]. eapply read_in_bounds; eauto. }
  rewrite Hv. f_equal. apply Hiff. split; [split|].
  - intros Hf. destruct (Hfound Hf) as (p & _ & Hr). eapply read_In; eauto.
  - auto.
  - exact Hfound.
Qed.

(** X4. On a sorted, non-empty vector the result of each of the five
    strategies passes the verification, for every value searched for:
    [VerifyResults] prints nothing. *)
Theorem strategies_pass_verification
    (unrepresentable : F32.float -> Z) (s : strategy)
    (values : list Z) (searchValue : Z) (list_name test : string) :
  values <> [] -> size values <= vector_max_size -> Sorted Z.le values ->
  main_trial unrepresentable s values searchValue list_name test = Some None.
Proof. apply trial_sorted. Qed.

Lemma strategies_pass_verification_witness :
  main_trial (fun _ => 0) LineFit
    [0; 10; 20; 30; 40; 50; 60; 70; 80; 90; 9000] 85
    "Linear Outlier" "Line Fit" = Some None.
Proof.
  apply strategies_pass_verification.
  - discriminate.
  - vm_compute. discriminate.
  - repeat constructor; lia.
Defined.

(** ** The empty vector *)

(** X5. Only the linear search accepts an empty vector: it returns
    [found = false] without a guess and without a read.  The binary search
    starts from [maxIndex = size - 1], which wraps around, and reads at
    index 2^63 - 1; the line fit, the blind line fit and the hybrid search
    read [values[0]]: all four read outside the vector. *)
Theorem strategies_on_the_empty_vector
    (unrepresentable : F32.float -> Z) (searchValue : Z) :
  TestList_LinearSearch [] searchValue
    = mkRun [] (Returned (mkTestResults false (Some 0) 0)) /\
  TestList_BinarySearch [] searchValue
    = mkRun [9223372036854775807] (OutOfBounds 9223372036854775807) /\
  TestList_LineFit unrepresentable [] searchValue
    = mkRun [0] (OutOfBounds 0) /\
  TestList_LineFitBlind unrepresentable [] searchValue
    = mkRun [0] (OutOfBounds 0) /\
  TestList_HybridSearch unrepresentable [] searchValue
    = mkRun [0] (OutOfBounds 0) /\
  main_trial unrepresentable LinearSearch [] searchValue
    "Linear" "Linear Search" = Some None.
Proof. repeat split; reflexivity. Qed.

(** ** Clamp *)

(** X6. With [min <= max], [Clamp] returns a value of [min .. max], leaves
    the values of that range as they are, is idempotent and monotone.
    With [min > max] it returns [min] for a value below [min] and [max]
    for every other value. *)
Theorem Clamp_contract (min max value : Z) :
  (min <= max ->
   min <= Clamp min max value <= max /\
   (min <= value <= max -> Clamp min max value = value) /\
   Clamp min max (Clamp min max value) = Clamp min max value /\
   (forall value', value <= value' ->
      Clamp min max value <= Clamp min max value')) /\
  (max < min ->
   Clamp min max value = if value <? min then min else max).
Proof.
  split.
  - intros Hle.
    destruct (Clamp_cases min max value) as [[? E]|[(? & ? & E)|[? E]]];
      rewrite E.
    + split; [lia|]. split; [lia|]. split.
      * destruct (Clamp_cases min max min) as [[? ->]|[(? & ? & ->)|[? ->]]];
          lia.
      * intros w Hw.
        destruct (Clamp_cases min max w) as [[? ->]|[(? & ? & ->)|[? ->]]];
          lia.
    + split; [lia|]. split; [lia|]. split.
      * destruct (Clamp_cases min max max) as [[? ->]|[(? & ? & ->)|[? ->]]];
          lia.
      * intros w Hw.
        destruct (Clamp_cases min max w) as [[? ->]|[(? & ? & ->)|[? ->]]];
          lia.
    + split; [lia|]. split; [reflexivity|]. split.
      * destruct (Clamp_cases min max value)
          as [[? ->]|[(? & ? & ->)|[? ->]]]; lia.
      * intros w Hw.
        destruct (Clamp_cases min max w) as [[? ->]|[(? & ? & ->)|[? ->]]];
          lia.
  - intros Hgt. unfold Clamp. destruct (Z.ltb_spec value min); [reflexivity|].
    destruct (Z.gtb_spec value max); [reflexivity | lia].
Qed.

(** ** The number of guesses *)

Lemma BinarySearch_body_halves (values : list Z) (searchValue : Z)
    (st : BinaryState) :
  size values <= vector_max_size ->
  binary_inv values searchValue st ->
  match BinarySearch_body values searchValue st with
  | Continue st' =>
      bin_guesses st' = bin_guesses st + 1 /\
      2 * (bin_maxIndex st' - bin_minIndex st' + 1)
        <= bin_maxIndex st - bin_minIndex st + 1
  | Done r =>
      forall ret, result r = Returned ret -> guesses ret = bin_guesses st + 1
  end.
Proof.
  intros Hmax Hinv.
  destruct (BinarySearch_guessIndex_mid values searchValue st Hmax Hinv)
    as [Hmid Hg].
  destruct Hinv as (Hb & Hsz & Hg0 & Hgs & _).
  rewrite vector_max_size_eq in Hmax.
  unfold BinarySearch_body.
  destruct (read values (BinarySearch_guessIndex st)) as [guess|];
    [|intros ret H; discriminate].
  unwrap.
  destruct (guess =? searchValue) eqn:Eeq.
  { intros ret Hret. inversion Hret. reflexivity. }
  apply Z.eqb_neq in Eeq. unfold BinarySearch_narrow.
  assert (Hlo : bin_minIndex st + bin_maxIndex st - 1
                <= 2 * BinarySearch_guessIndex st
                <= bin_minIndex st + bin_maxIndex st).
  { rewrite Hmid. Z.div_mod_to_equations. lia. }
  destruct (Z.ltb_spec guess searchValue).
  - unwrap. destruct (_ >? _).
    + intros ret Hret. inversion Hret. reflexivity.
    + cbn [bin_guesses bin_minIndex bin_maxIndex]. lia.
  - destruct (Z.gtb_spec guess searchValue); [|lia].
    + destruct (BinarySearch_guessIndex st =? 0) eqn:E0.
      * intros ret Hret. inversion Hret. reflexivity.
      * apply Z.eqb_neq in E0. unwrap. destruct (_ >? _).
        -- intros ret Hret. inversion Hret. reflexivity.
        -- cbn [bin_guesses bin_minIndex bin_maxIndex]. lia.
Qed.

Lemma pow2_succ (n : Z) : 0 <= n -> 2 ^ (n + 1) = 2 * 2 ^ n.
Proof. intros Hn. rewrite Z.pow_add_r by lia. lia. Qed.

Lemma pow2_pos (n : Z) : 0 <= n -> 0 < 2 ^ n.
Proof. intros Hn. apply Z.pow_pos_nonneg; lia. Qed.

Lemma BinarySearch_guesses (values : list Z) (searchValue : Z) :
  values <> [] -> size values <= vector_max_size ->
  exists ret,
    result (TestList_BinarySearch values searchValue) = Returned ret /\
    1 <= guesses ret /\
    2 ^ (guesses ret - 1) <= size values.
Proof.
  intros Hne Hmax. unfold TestList_BinarySearch.
  apply (loop_rule (BinarySearch_body values searchValue)
           (fun st => binary_inv values searchValue st /\
                      2 ^ bin_guesses st
                        * (bin_maxIndex st - bin_minIndex st + 1)
                      <= size values)
           (fun st => bin_maxIndex st - bin_minIndex st)
           (fun r => exists ret,
                       result r = Returned ret /\ 1 <= guesses ret /\
                       2 ^ (guesses ret - 1) <= size values)).
  - intros st [Hinv Hpot].
    destruct (BinarySearch_body_spec values searchValue st Hmax Hinv)
      as [H0 Hb].
    pose proof (BinarySearch_body_halves values searchValue st Hmax Hinv)
      as Hh.
    split; [exact H0|].
    assert (Hg0 : 0 <= bin_guesses st) by (destruct Hinv as (_ & _ & ? & _); lia).
    pose proof (pow2_pos _ Hg0) as Hpos.
    destruct (BinarySearch_body values searchValue st) as [st'|r].
    + destruct Hb as [Hinv' Hlt]. destruct Hh as [Hg' Hw].
      split; [|exact Hlt]. split; [exact Hinv'|].
      rewrite Hg', pow2_succ by lia. nia.
    + destruct Hb as (ret & Hret & _). exists ret.
      rewrite (Hh ret Hret).
      split; [exact Hret|]. split; [lia|].
      replace (bin_guesses st + 1 - 1) with (bin_guesses st) by lia. nia.
  - split; [now apply BinarySearch_init_inv|].
    pose proof (size_pos values Hne). rewrite vector_max_size_eq in Hmax.
    unfold BinarySearch_init; cbn [bin_guesses bin_minIndex bin_maxIndex].
    unwrap. change (2 ^ 0) with 1. lia.
  - pose proof (size_pos values Hne). rewrite vector_max_size_eq in Hmax.
    unfold BinarySearch_init; simpl. unwrap. unfold size in *. lia.
Qed.

(** X7. On a non-empty vector the binary search returns after at most
    [log2 (size) + 1] guesses: each iteration that goes on halves the
    number of candidate indices, [2 ^ (guesses - 1) <= size]. *)
Theorem BinarySearch_guesses_logarithmic (values : list Z) (searchValue : Z) :
  values <> [] -> size values <= vector_max_size ->
  exists ret,
    result (TestList_BinarySearch values searchValue) = Returned ret /\
    1 <= guesses ret /\
    2 ^ (guesses ret - 1) <= size values /\
    guesses ret <= Z.log2 (size values) + 1.
Proof.
  intros Hne Hmax.
  destruct (BinarySearch_guesses values searchValue Hne Hmax)
    as (ret & Hret & H1 & Hpow).
  exists ret. split; [exact Hret|]. split; [exact H1|]. split; [exact Hpow|].
  pose proof (size_pos values Hne).
  assert (guesses ret - 1 <= Z.log2 (size values))
    by (apply Z.log2_le_pow2; lia).
  lia.
Qed.

Lemma BinarySearch_guesses_logarithmic_witness :
  exists ret,
    result (TestList_BinarySearch [0; 1; 2; 3; 4; 5; 6; 7; 8; 9] 7)
      = Returned ret /\
    1 <= guesses ret /\
    2 ^ (guesses ret - 1) <= size [0; 1; 2; 3; 4; 5; 6; 7; 8; 9] /\
    guesses ret <= Z.log2 (size [0; 1; 2; 3; 4; 5; 6; 7; 8; 9]) + 1.
Proof.
  apply BinarySearch_guesses_logarithmic.
  - discriminate.
  - vm_compute. discriminate.
Defined.

(** Where a probe leaves the bracket and the count of the guesses. *)
Lemma probe_step_moves (values : list Z) (searchValue : Z) (st : FitState)
    (p : Z) :
  match probe_step values searchValue st p with
  | Continue st' =>
      fit_guesses st' = size_t.add (fit_guesses st) 1 /\
      ((minIndex st' = p /\ maxIndex st' = maxIndex st) \/
       (minIndex st' = minIndex st /\ maxIndex st' = p))
  | Done r =>
      forall ret, result r = Returned ret ->
        guesses ret = size_t.add (fit_guesses st) 1
  end.
Proof.
  unfold probe_step.
  destruct (read values p) as [guess|]; [|intros ret Hret; discriminate].
  destruct (guess =? searchValue).
  { intros ret Hret. inversion Hret. reflexivity. }
  destruct (guess <? searchValue);
    match goal with |- context [if ?c then _ else _] => destruct c end;
    try (intros ret Hret; inversion Hret; reflexivity);
    simpl; auto.
Qed.

Section GuessCounts.

Variable unrepresentable : F32.float -> Z.
Variable values : list Z.
Variable searchValue : Z.
Hypothesis values_nonempty : values <> [].
Hypothesis values_max : size values <= vector_max_size.

(** Either one of the three early returns, without a guess, or the loop. *)
Lemma prologue_cases (enter : Z -> Z -> run) :
  let r :=
    match read values 0 with
    | None => mkRun [0] (OutOfBounds 0)
    | Some min =>
        match read values (size_t.sub (size values) 1) with
        | None =>
            mkRun [size_t.sub (size values) 1; 0]
                  (OutOfBounds (size_t.sub (size values) 1))
        | Some max =>
            if (searchValue <? min) || (searchValue >? max) then
              mkRun [size_t.sub (size values) 1; 0]
                    (Returned (mkTestResults false None 0))
            else if searchValue =? min then
              mkRun [size_t.sub (size values) 1; 0]
                    (Returned (mkTestResults true (Some 0) 0))
            else if searchValue =? max then
              mkRun [size_t.sub (size values) 1; 0]
                    (Returned
                       (mkTestResults true
                          (Some (size_t.sub (size values) 1)) 0))
            else enter min max
        end
    end in
  (exists ret, result r = Returned ret /\ guesses ret = 0) \/
  (exists min max,
     read values 0 = Some min /\ read values (size values - 1) = Some max /\
     min < searchValue < max /\ r = enter min max).
Proof.
  pose proof (size_pos values values_nonempty) as Hpos.
  pose proof values_max as Hm. rewrite vector_max_size_eq in Hm.
  unwrap.
  destruct (read_defined values 0) as [min Hmin]; [lia|].
  destruct (read_defined values (size values - 1)) as [max Hmax]; [lia|].
  rewrite Hmin, Hmax. cbv zeta.
  destruct ((searchValue <? min) || (searchValue >? max)) eqn:Eout.
  { left. eexists. split; reflexivity. }
  apply orb_false_iff in Eout as [E1 E2]. apply Z.ltb_ge in E1.
  assert (searchValue <= max)
    by (destruct (Z.gtb_spec searchValue max); [discriminate|lia]).
  destruct (Z.eqb_spec searchValue min).
  { left. eexists. split; reflexivity. }
  destruct (Z.eqb_spec searchValue max).
  { left. eexists. split; reflexivity. }
  right. exists min, max. repeat split; auto; lia.
Qed.

Lemma LineFit_loop_guesses (fuel : nat) (st : FitState) :
  fit_inv values searchValue st ->
  (0 < fit_guesses st -> minIndex st + 1 < maxIndex st) ->
  fit_guesses st + (maxIndex st - minIndex st) <= size values - 1 ->
  maxIndex st - minIndex st < Z.of_nat fuel ->
  exists ret,
    result (loop (LineFit_body unrepresentable values searchValue) fuel st)
      = Returned ret /\
    1 <= guesses ret <= Z.max 1 (size values - 2).
Proof.
  intros Hinv Hproper Hpot.
  apply (loop_rule (LineFit_body unrepresentable values searchValue)
           (fun st =>
              fit_inv values searchValue st /\
              (0 < fit_guesses st -> minIndex st + 1 < maxIndex st) /\
              fit_guesses st + (maxIndex st - minIndex st)
                <= size values - 1)
           (fun st => maxIndex st - minIndex st)
           (fun r => exists ret,
                       result r = Returned ret /\
                       1 <= guesses ret <= Z.max 1 (size values - 2)));
    [|auto].
  clear st Hinv Hproper Hpot. intros st (Hinv & Hproper & Hpot).
  pose proof (LineFit_body_spec unrepresentable values searchValue
                values_max st Hinv) as Hb.
  rewrite LineFit_body_probe in *.
  pose proof (probe_step_moves values searchValue st
                (LineFit_guessIndex unrepresentable searchValue st)) as Hm.
  assert (Hbr : 0 <= minIndex st < maxIndex st) by (destruct Hinv; lia).
  assert (Hg : 0 <= fit_guesses st) by (destruct Hinv as (_ & _ & ? & _); lia).
  pose proof values_max as Hmax. rewrite vector_max_size_eq in Hmax.
  split; [lia|].
  destruct (probe_step values searchValue st _) as [st'|r]; simpl in Hb.
  - destruct Hb as (Hinv' & Hlo & Hhi & Hlt & Hp' & Hp).
    destruct Hm as [Hg' _]. rewrite add_small in Hg' by (rewrite modulus_eq; lia).
    split; [|exact Hlt]. split; [exact Hinv'|]. split; [auto|]. lia.
  - destruct Hb as ((ret & Hret & _) & _).
    exists ret. split; [exact Hret|].
    rewrite (Hm ret Hret). rewrite add_small by (rewrite modulus_eq; lia).
    destruct (Z_lt_le_dec 0 (fit_guesses st)) as [Hpos|Hzero].
    + specialize (Hproper Hpos). lia.
    + lia.
Qed.

Lemma half_succ (g : Z) :
  0 <= g ->
  (g + 1) / 2 = g / 2 + (if Z.odd g then 1 else 0) /\
  Z.odd (g + 1) = negb (Z.odd g).
Proof.
  intros Hg. split.
  - pose proof (Zmod_odd g) as Hodd.
    destruct (Z.odd g); Z.div_mod_to_equations; lia.
  - change (g + 1) with (Z.succ g). rewrite Z.odd_succ.
    symmetry. apply Z.negb_odd.
Qed.

Lemma Hybrid_loop_guesses (fuel : nat) (hs : HybridState) :
  fit_inv values searchValue (fit hs) ->
  doBinaryStep hs = Z.odd (fit_guesses (fit hs)) ->
  (0 < fit_guesses (fit hs) ->
   minIndex (fit hs) + 1 < maxIndex (fit hs)) ->
  2 ^ (fit_guesses (fit hs) / 2)
    * (maxIndex (fit hs) - minIndex (fit hs)
       + (if Z.odd (fit_guesses (fit hs)) then 1 else 0))
    <= size values - 1 ->
  maxIndex (fit hs) - minIndex (fit hs) < Z.of_nat fuel ->
  exists ret,
    result (loop (Hybrid_body unrepresentable values searchValue) fuel hs)
      = Returned ret /\
    1 <= guesses ret /\
    2 ^ (guesses ret / 2) <= size values - 1.
Proof.
  intros Hinv Hodd Hproper Hpot.
  apply (loop_rule (Hybrid_body unrepresentable values searchValue)
           (fun hs =>
              fit_inv values searchValue (fit hs) /\
              doBinaryStep hs = Z.odd (fit_guesses (fit hs)) /\
              (0 < fit_guesses (fit hs) ->
               minIndex (fit hs) + 1 < maxIndex (fit hs)) /\
              2 ^ (fit_guesses (fit hs) / 2)
                * (maxIndex (fit hs) - minIndex (fit hs)
                   + (if Z.odd (fit_guesses (fit hs)) then 1 else 0))
                <= size values - 1)
           (fun hs => maxIndex (fit hs) - minIndex (fit hs))
           (fun r => exists ret,
                       result r = Returned ret /\ 1 <= guesses ret /\
                       2 ^ (guesses ret / 2) <= size values - 1));
    [|auto].
  clear hs Hinv Hodd Hproper Hpot. intros hs (Hinv & Hodd & Hproper & Hpot).
  set (st := fit hs) in *. set (g := fit_guesses st) in *.
  set (p := Hybrid_guessIndex unrepresentable searchValue hs).
  assert (Hbr : 0 <= minIndex st < maxIndex st) by (destruct Hinv; lia).
  assert (Hsz : maxIndex st < size values) by (destruct Hinv as (_ & ? & _); lia).
  assert (Hg : 0 <= g) by (destruct Hinv as (_ & _ & ? & _); lia).
  assert (Hgs : g + (maxIndex st - minIndex st) <= size values)
    by (destruct Hinv as (_ & _ & _ & ? & _); lia).
  pose proof values_max as Hmax. rewrite vector_max_size_eq in Hmax.
  destruct (clamped_in_bracket values searchValue values_max st
              (Hybrid_unclamped unrepresentable searchValue hs) Hinv)
    as [Hp Hstrict].
  change (Clamp _ _ _) with p in Hp, Hstrict.
  pose proof (probe_step_spec values searchValue values_max st p Hinv Hp
                Hstrict) as Hb.
  pose proof (probe_step_moves values searchValue st p) as Hm.
  destruct (half_succ g Hg) as [Hhalf Hnext].
  pose proof (pow2_pos (g / 2) ltac:(Z.div_mod_to_equations; lia)) as Hpow.
  (* on an odd iteration the probe is the middle of the bracket *)
  assert (Hmid : Z.odd g = true ->
                 minIndex st + maxIndex st - 1 <= 2 * p
                                               <= minIndex st + maxIndex st).
  { intros Ho. assert (0 < g) by (destruct (Z.eq_dec g 0) as [E|]; [rewrite E in Ho; discriminate | lia]).
    specialize (Hproper H). unfold p, Hybrid_guessIndex, Hybrid_unclamped.
    fold st. rewrite Hodd, Ho. unwrap.
    destruct (Clamp_cases (minIndex st + 1) (maxIndex st - 1)
                ((minIndex st + maxIndex st) / 2))
      as [[? ->]|[(? & ? & ->)|[? ->]]]; Z.div_mod_to_equations; lia. }
  split; [lia|].
  rewrite Hybrid_body_probe. fold st. fold p.
  destruct (probe_step values searchValue st p) as [st'|r]; simpl in Hb.
  - destruct Hb as (Hinv' & Hlo & Hhi & Hlt & Hp' & Hpr).
    destruct Hm as [Hg' Hmove].
    rewrite add_small in Hg' by (rewrite modulus_eq; lia).
    cbn [fit doBinaryStep]. split; [|exact Hlt].
    split; [exact Hinv'|]. rewrite Hg'. fold g.
    split; [rewrite Hnext, Hodd; reflexivity|]. split; [auto|].
    rewrite Hhalf, Hnext.
    destruct (Z.odd g) eqn:Ho; cbn [negb].
    + specialize (Hmid eq_refl). rewrite pow2_succ
        by (Z.div_mod_to_equations; lia).
      rewrite Z.add_0_r. nia.
    + rewrite Z.add_0_r in *. specialize (Hstrict Hpr). nia.
  - destruct Hb as ((ret & Hret & _) & _).
    exists ret. split; [exact Hret|].
    rewrite (Hm ret Hret). rewrite add_small by (rewrite modulus_eq; lia).
    fold g. split; [lia|]. rewrite Hhalf.
    destruct (Z.odd g) eqn:Ho.
    + rewrite pow2_succ by (Z.div_mod_to_equations; lia). nia.
    + rewrite Z.add_0_r in *. nia.
Qed.

End GuessCounts.

Lemma LineFit_guesses (unrepresentable : F32.float -> Z) (values : list Z)
    (searchValue : Z) :
  values <> [] -> size values <= vector_max_size ->
  exists ret,
    result (TestList_LineFit unrepresentable values searchValue)
      = Returned ret /\
    0 <= guesses ret <= Z.max 1 (size values - 2).
Proof.
  intros Hne Hmax. unfold TestList_LineFit.
  destruct (prologue_cases values searchValue Hne Hmax
              (fun min max =>
                 loop (LineFit_body unrepresentable values searchValue)
                      (length values) (fit_init values min max)))
    as [(ret & Hret & Hg)|(min & max & Hmin & Hmaxv & Hlt & Hrun)].
  - exists ret. split; [exact Hret|]. lia.
  - cbv zeta in Hrun. rewrite Hrun.
    destruct (fit_init_inv values searchValue Hne Hmax min max Hmin Hmaxv Hlt)
      as (Hinv & H0 & H1).
    destruct (LineFit_loop_guesses unrepresentable values searchValue Hmax
                (length values) (fit_init values min max)) as (ret & Hret & Hg).
    + exact Hinv.
    + simpl. lia.
    + rewrite H0, H1. simpl. lia.
    + rewrite H0, H1. unfold size. lia.
    + exists ret. split; [exact Hret|]. lia.
Qed.

(** X8. On a non-empty vector the line fit returns after at most
    [size - 2] guesses, and after at most one on a vector of one or two
    elements; the blind line fit reports two more. *)
Theorem LineFit_guesses_linear
    (unrepresentable : F32.float -> Z) (values : list Z) (searchValue : Z) :
  values <> [] -> size values <= vector_max_size ->
  exists ret blind,
    result (TestList_LineFit unrepresentable values searchValue)
      = Returned ret /\
    result (TestList_LineFitBlind unrepresentable values searchValue)
      = Returned blind /\
    0 <= guesses ret <= Z.max 1 (size values - 2) /\
    guesses blind = guesses ret + 2.
Proof.
  intros Hne Hmax.
  destruct (LineFit_guesses unrepresentable values searchValue Hne Hmax)
    as (ret & Hret & Hg).
  destruct (LineFitBlind_result unrepresentable values searchValue Hne Hmax)
    as (ret' & Hrun & _ & Hblind).
  rewrite Hrun in Hret. simpl in Hret. inversion Hret; subst ret'.
  exists ret, (mkTestResults (found ret) (index ret) (guesses ret + 2)).
  rewrite Hblind, Hrun. simpl. auto.
Qed.

Lemma LineFit_guesses_linear_witness :
  exists ret blind,
    result (TestList_LineFit (fun _ => 0)
              [0; 10; 20; 30; 40; 50; 60; 70; 80; 90; 9000] 90)
      = Returned ret /\
    result (TestList_LineFitBlind (fun _ => 0)
              [0; 10; 20; 30; 40; 50; 60; 70; 80; 90; 9000] 90)
      = Returned blind /\
    0 <= guesses ret
      <= Z.max 1 (size [0; 10; 20; 30; 40; 50; 60; 70; 80; 90; 9000] - 2) /\
    guesses blind = guesses ret + 2.
Proof.
  apply LineFit_guesses_linear.
  - discriminate.
  - vm_compute. discriminate.
Defined.

(** The bound of X8 is reached: on the eleven elements below the line fit
    creeps up one index at a time and needs nine guesses to find 90, where
    the binary search needs three and the hybrid search five. *)
Example LineFit_worst_case :
  let values := [0; 10; 20; 30; 40; 50; 60; 70; 80; 90; 9000] in
  result (TestList_LineFit (fun _ => 0) values 90)
    = Returned (mkTestResults true (Some 9) 9) /\
  result (TestList_BinarySearch values 90)
    = Returned (mkTestResults true (Some 9) 3) /\
  result (TestList_HybridSearch (fun _ => 0) values 90)
    = Returned (mkTestResults true (Some 9) 5).
Proof. repeat split; vm_compute; reflexivity. Qed.

Lemma Hybrid_guesses (unrepresentable : F32.float -> Z) (values : list Z)
    (searchValue : Z) :
  values <> [] -> size values <= vector_max_size ->
  exists ret,
    result (TestList_HybridSearch unrepresentable values searchValue)
      = Returned ret /\
    0 <= guesses ret /\
    2 ^ (guesses ret / 2) <= size values.
Proof.
  intros Hne Hmax. unfold TestList_HybridSearch.
  pose proof (size_pos values Hne) as Hpos.
  destruct (prologue_cases values searchValue Hne Hmax
              (fun min max =>
                 loop (Hybrid_body unrepresentable values searchValue)
                      (length values) (Hybrid_init values min max)))
    as [(ret & Hret & Hg)|(min & max & Hmin & Hmaxv & Hlt & Hrun)].
  - exists ret. split; [exact Hret|]. rewrite Hg. simpl. lia.
  - cbv zeta in Hrun. rewrite Hrun.
    destruct (fit_init_inv values searchValue Hne Hmax min max Hmin Hmaxv Hlt)
      as (Hinv & H0 & H1).
    destruct (Hybrid_loop_guesses unrepresentable values searchValue Hmax
                (length values) (Hybrid_init values min max))
      as (ret & Hret & Hg & Hpow).
    + exact Hinv.
    + reflexivity.
    + simpl. lia.
    + unfold Hybrid_init. cbn [fit]. rewrite H0, H1.
      change (fit_guesses (fit_init values min max)) with 0.
      change (2 ^ (0 / 2)) with 1. change (Z.odd 0) with false.
      cbv iota. lia.
    + unfold Hybrid_init. cbn [fit]. rewrite H0, H1. unfold size. lia.
    + exists ret. split; [exact Hret|]. lia.
Qed.

(** X9. On a non-empty vector the hybrid search returns after at most
    [2 * log2 (size) + 1] guesses: every second iteration probes the
    middle of the bracket, so two iterations halve it,
    [2 ^ (guesses / 2) <= size]. *)
Theorem Hybrid_guesses_logarithmic
    (unrepresentable : F32.float -> Z) (values : list Z) (searchValue : Z) :
  values <> [] -> size values <= vector_max_size ->
  exists ret,
    result (TestList_HybridSearch unrepresentable values searchValue)
      = Returned ret /\
    0 <= guesses ret /\
    2 ^ (guesses ret / 2) <= size values /\
    guesses ret <= 2 * Z.log2 (size values) + 1.
Proof.
  intros Hne Hmax.
  destruct (Hybrid_guesses unrepresentable values searchValue Hne Hmax)
    as (ret & Hret & H0 & Hpow).
  exists ret. split; [exact Hret|]. split; [exact H0|]. split; [exact Hpow|].
  pose proof (size_pos values Hne).
  assert (guesses ret / 2 <= Z.log2 (size values)).
  { apply Z.log2_le_pow2; [lia|exact Hpow]. }
  Z.div_mod_to_equations. lia.
Qed.

Lemma Hybrid_guesses_logarithmic_witness :
  exists ret,
    result (TestList_HybridSearch (fun _ => 0)
              [0; 10; 20; 30; 40; 50; 60; 70; 80; 90; 9000] 90)
      = Returned ret /\
    0 <= guesses ret /\
    2 ^ (guesses ret / 2)
      <= size [0; 10; 20; 30; 40; 50; 60; 70; 80; 90; 9000] /\
    guesses ret
      <= 2 * Z.log2 (size [0; 10; 20; 30; 40; 50; 60; 70; 80; 90; 9000]) + 1.
Proof.
  apply Hybrid_guesses_logarithmic.
  - discriminate.
  - vm_compute. discriminate.
Defined.

(** ** Rounding in single precision *)

Lemma digits2_pos_size (p : positive) : digits2_pos p = Pos.size p.
Proof. induction p; simpl; congruence. Qed.

Lemma Zdigits2_le (m k : Z) : 0 <= m < 2 ^ k -> 0 <= k -> Zdigits2 m <= k.
Proof.
  intros [H0 Hm] Hk. destruct m as [|p|p]; [simpl; lia | | lia].
  unfold Zdigits2. rewrite digits2_pos_size.
  destruct (Z_le_gt_dec (Zpos (Pos.size p)) k) as [|Hgt]; [assumption|].
  exfalso. pose proof (Pos.size_le p) as Hle.
  assert (H2 : 2 ^ Zpos (Pos.size p) <= 2 * Zpos p).
  { rewrite <- Pos2Z.inj_pow. change 2 with (Zpos 2).
    rewrite <- Pos2Z.inj_mul. apply Pos2Z.pos_le_pos. exact Hle. }
  assert (2 ^ (k + 1) <= 2 ^ Zpos (Pos.size p))
    by (apply Z.pow_le_mono_r; lia).
  rewrite Z.pow_add_r in H by lia. change (2 ^ 1) with 2 in H.
  clear Hle. lia.
Qed.

Lemma Zdigits2_gt (m : Z) : 0 < m -> 2 ^ (Zdigits2 m - 1) <= m.
Proof.
  intros H0. destruct m as [|p|p]; try lia. unfold Zdigits2.
  rewrite digits2_pos_size. pose proof (Pos.size_le p) as Hle.
  assert (H2 : 2 ^ Zpos (Pos.size p) <= 2 * Zpos p).
  { rewrite <- Pos2Z.inj_pow. change 2 with (Zpos 2).
    rewrite <- Pos2Z.inj_mul. apply Pos2Z.pos_le_pos. exact Hle. }
  replace (Zpos (Pos.size p)) with (Zpos (Pos.size p) - 1 + 1) in H2 by lia.
  rewrite Z.pow_add_r in H2 by lia. change (2 ^ 1) with 2 in H2.
  clear Hle. lia.
Qed.

Lemma Zdigits2_lt (m : Z) : 0 <= m -> m < 2 ^ Zdigits2 m.
Proof.
  intros H0. destruct m as [|p|p]; [simpl; lia | | lia].
  unfold Zdigits2. rewrite digits2_pos_size.
  pose proof (Pos.size_gt p) as Hgt.
  rewrite <- Pos2Z.inj_pow. apply Pos2Z.pos_lt_pos. exact Hgt.
Qed.

Lemma shr_1_nonneg (mrs : shr_record) :
  0 <= shr_m mrs -> 0 <= shr_m (shr_1 mrs).
Proof.
  destruct mrs as [m r s].
  destruct m as [|[p|p|]|p]; cbn [shr_1 shr_m]; lia.
Qed.

Lemma shr_1_le (mrs : shr_record) (B : Z) :
  0 <= shr_m mrs -> record_le mrs (2 * B) -> record_le (shr_1 mrs) B.
Proof.
  destruct mrs as [m r s]. unfold record_le.
  destruct m as [|[p|p|]|p]; cbn [shr_1 shr_m shr_r shr_s]; intros H0 H.
  - destruct H as [H|(H & -> & ->)]; [left; lia|].
    right. split; [lia|]. split; reflexivity.
  - left. pose proof (Pos2Z.inj_xI p). lia.
  - pose proof (Pos2Z.inj_xO p).
    destruct H as [H|(H & -> & ->)]; [left; lia|].
    right. split; [lia|]. split; reflexivity.
  - left. lia.
  - lia.
Qed.

Lemma shr_1_ge (mrs : shr_record) (B : Z) :
  0 <= shr_m mrs -> 2 * B <= shr_m mrs -> B <= shr_m (shr_1 mrs).
Proof.
  destruct mrs as [m r s].
  destruct m as [|[p|p|]|p]; cbn [shr_1 shr_m]; intros H0 H; lia.
Qed.

Lemma pow2_double (p : positive) :
  2 ^ Zpos p~0 = 2 ^ Zpos p * 2 ^ Zpos p.
Proof. rewrite Pos2Z.inj_xO, <- Z.pow_add_r by lia. f_equal. lia. Qed.

Lemma iter_shr_1 (p : positive) (mrs : shr_record) :
  0 <= shr_m mrs ->
  0 <= shr_m (iter_pos shr_1 p mrs) /\
  (forall B, record_le mrs (B * 2 ^ Zpos p) ->
             record_le (iter_pos shr_1 p mrs) B) /\
  (forall B, B * 2 ^ Zpos p <= shr_m mrs ->
             B <= shr_m (iter_pos shr_1 p mrs)).
Proof.
  revert mrs. induction p as [p IH|p IH|]; intros mrs H0.
  - cbn [iter_pos].
    pose proof (shr_1_nonneg mrs H0) as H1.
    destruct (IH _ H1) as (H2 & Hle1 & Hge1).
    destruct (IH _ H2) as (H3 & Hle2 & Hge2).
    assert (E : forall B, B * 2 ^ Zpos p~1 = 2 * (B * 2 ^ Zpos p * 2 ^ Zpos p)).
    { intros B. rewrite Pos2Z.inj_xI, Z.pow_add_r by lia.
      rewrite <- Pos2Z.inj_xO, pow2_double. change (2 ^ 1) with 2. ring. }
    split; [exact H3|]. split; intros B H.
    + apply Hle2, Hle1, shr_1_le; [exact H0|]. rewrite <- E. exact H.
    + apply Hge2, Hge1, shr_1_ge; [exact H0|]. rewrite <- E. exact H.
  - cbn [iter_pos].
    destruct (IH _ H0) as (H2 & Hle1 & Hge1).
    destruct (IH _ H2) as (H3 & Hle2 & Hge2).
    assert (E : forall B, B * 2 ^ Zpos p~0 = B * 2 ^ Zpos p * 2 ^ Zpos p).
    { intros B. rewrite pow2_double. ring. }
    split; [exact H3|]. split; intros B H.
    + apply Hle2, Hle1. rewrite <- E. exact H.
    + apply Hge2, Hge1. rewrite <- E. exact H.
  - cbn [iter_pos]. split; [now apply shr_1_nonneg|]. split; intros B H.
    + apply shr_1_le; [exact H0|].
      replace (2 * B) with (B * 2 ^ 1) by (change (2 ^ 1) with 2; lia).
      exact H.
    + apply shr_1_ge; [exact H0|]. change (2 ^ 1) with 2 in H. lia.
Qed.

Lemma fexp_small (d : Z) : d <= 24 -> fexp F32.prec F32.emax d <= 0.
Proof. intros H. unfold fexp, emin, F32.prec, F32.emax. lia. Qed.

Lemma shr_m_of_loc (m : Z) (l : location) : shr_m (shr_record_of_loc m l) = m.
Proof. destruct l as [|[]]; reflexivity. Qed.

Lemma record_le_m (mrs : shr_record) (B : Z) : record_le mrs B -> shr_m mrs <= B.
Proof. intros [H|(H & _)]; lia. Qed.

Lemma record_le_exact (m B : Z) :
  m <= B -> record_le (shr_record_of_loc m loc_Exact) B.
Proof.
  intros H. unfold record_le. cbn [shr_record_of_loc shr_m shr_r shr_s].
  destruct (Z.eq_dec m B) as [->|]; [right; auto | left; lia].
Qed.

(** The mantissa [m] at exponent [e], of value at most [K < 2^24], once
    shifted to its place. *)
Lemma shr_fexp_bounds (m e : Z) (l : location) (K : Z) :
  0 <= m -> e <= 0 -> 0 <= K < 2 ^ 24 ->
  record_le (shr_record_of_loc m l) (K * 2 ^ (- e)) ->
  exists mrs' e',
    shr_fexp F32.prec F32.emax m e l = (mrs', e') /\
    e' <= 0 /\ 0 <= shr_m mrs' /\
    record_le mrs' (K * 2 ^ (- e')) /\
    (forall L, L * 2 ^ (- e) <= m -> L * 2 ^ (- e') <= shr_m mrs').
Proof.
  intros H0 He HK Hle.
  pose proof (record_le_m _ _ Hle) as Hm. rewrite shr_m_of_loc in Hm.
  assert (Hp : 0 < 2 ^ (- e)) by (apply Z.pow_pos_nonneg; lia).
  assert (Hd : Zdigits2 m <= 24 - e).
  { apply Zdigits2_le; [|lia]. split; [exact H0|].
    replace (24 - e) with (24 + - e) by lia.
    rewrite Z.pow_add_r by lia. nia. }
  assert (Hf : fexp F32.prec F32.emax (Zdigits2 m + e) <= 0)
    by (apply fexp_small; lia).
  unfold shr_fexp, shr.
  destruct (fexp F32.prec F32.emax (Zdigits2 m + e) - e) as [|p|p] eqn:En.
  - exists (shr_record_of_loc m l), e.
    rewrite shr_m_of_loc. repeat (split; auto).
  - exists (iter_pos shr_1 p (shr_record_of_loc m l)), (e + Zpos p).
    assert (H0' : 0 <= shr_m (shr_record_of_loc m l))
      by (rewrite shr_m_of_loc; exact H0).
    destruct (iter_shr_1 p _ H0') as (H1 & Hle' & Hge').
    assert (E : forall B, B * 2 ^ (- (e + Zpos p)) * 2 ^ Zpos p
                          = B * 2 ^ (- e)).
    { intros B. rewrite <- Z.mul_assoc, <- Z.pow_add_r by lia.
      do 2 f_equal. lia. }
    split; [reflexivity|]. split; [lia|]. split; [exact H1|]. split.
    + apply Hle'. rewrite E. exact Hle.
    + intros L HL. apply Hge'. rewrite E, shr_m_of_loc. exact HL.
  - exists (shr_record_of_loc m l), e.
    rewrite shr_m_of_loc. repeat (split; auto).
Qed.

Lemma round_nearest_even_bounds (mrs : shr_record) (B : Z) :
  record_le mrs B ->
  shr_m mrs <= round_nearest_even (shr_m mrs) (loc_of_shr_record mrs) <= B.
Proof.
  destruct mrs as [m r s]. unfold record_le.
  cbn [shr_m shr_r shr_s]. intros [H|(H & -> & ->)].
  - destruct r, s; cbn [loc_of_shr_record round_nearest_even];
      try destruct (Z.even m); lia.
  - cbn [loc_of_shr_record round_nearest_even]. lia.
Qed.

(** Rounding to single precision does not cross a bound [K < 2^24], in
    either direction. *)
Lemma binary_round_aux_bounds (mx ex : Z) (lx : location) (K : Z) :
  0 <= mx -> ex <= 0 -> 0 <= K < 2 ^ 24 ->
  record_le (shr_record_of_loc mx lx) (K * 2 ^ (- ex)) ->
  float_le (binary_round_aux F32.prec F32.emax false mx ex lx) K /\
  (forall L, 0 < L -> L * 2 ^ (- ex) <= mx ->
     float_ge (binary_round_aux F32.prec F32.emax false mx ex lx) L).
Proof.
  intros H0 He HK Hle.
  destruct (shr_fexp_bounds mx ex lx K H0 He HK Hle)
    as (mrs' & e' & E1 & He' & H0' & Hle' & Hge').
  pose proof (round_nearest_even_bounds _ _ Hle') as Hr.
  set (m1 := round_nearest_even (shr_m mrs') (loc_of_shr_record mrs')) in *.
  destruct (shr_fexp_bounds m1 e' loc_Exact K)
    as (mrs'' & e'' & E2 & He'' & H0'' & Hle'' & Hge'');
    [lia | exact He' | exact HK | apply record_le_exact; lia |].
  unfold binary_round_aux. rewrite E1. fold m1. rewrite E2.
  assert (Hp : 0 < 2 ^ (- e'')) by (apply Z.pow_pos_nonneg; lia).
  pose proof (record_le_m _ _ Hle'') as Hm''.
  destruct (shr_m mrs'') as [|m|m] eqn:Em; [| |lia].
  - split; [exact I|]. intros L HL HLm. exfalso.
    assert (L * 2 ^ (- e'') <= 0).
    { apply Hge''. specialize (Hge' L HLm). lia. }
    nia.
  - replace (e'' <=? F32.emax - F32.prec) with true
      by (symmetry; apply Z.leb_le; unfold F32.emax, F32.prec; lia).
    split; [split; [exact He''|exact Hm'']|].
    intros L HL HLm. split; [exact He''|].
    apply Hge''. specialize (Hge' L HLm). lia.
Qed.

(** ** The operations on floats of [0 .. 2^24] *)

(** [float(n)] is [n] for the integers below 2^24. *)
Lemma of_Z_exact (n : Z) :
  0 < n < 2 ^ 24 -> float_le (F32.of_Z n) n /\ float_ge (F32.of_Z n) n.
Proof.
  intros Hn. destruct n as [|p|p]; try lia.
  unfold F32.of_Z, binary_normalize, binary_round, shl_align.
  set (ex' := fexp F32.prec F32.emax (Z.pos (digits2_pos p) + 0)).
  destruct (ex' - 0) as [|d|d] eqn:Ed.
  - destruct (binary_round_aux_bounds (Zpos p) 0 loc_Exact (Zpos p))
      as (Hle & Hge); [lia | lia | lia | apply record_le_exact |].
    + change (2 ^ (- 0)) with 1. lia.
    + split; [exact Hle|]. apply Hge; [lia|].
      change (2 ^ (- 0)) with 1. lia.
  - destruct (binary_round_aux_bounds (Zpos p) 0 loc_Exact (Zpos p))
      as (Hle & Hge); [lia | lia | lia | apply record_le_exact |].
    + change (2 ^ (- 0)) with 1. lia.
    + split; [exact Hle|]. apply Hge; [lia|].
      change (2 ^ (- 0)) with 1. lia.
  - assert (E : Zpos (Pos.iter xO p d) = Zpos p * 2 ^ (- ex')).
    { change (Pos.iter xO p d) with (shift_pos d p).
      rewrite shift_pos_correct. change (Z.pow_pos 2 d) with (2 ^ Zpos d).
      replace (- ex') with (Zpos d) by lia. ring. }
    destruct (binary_round_aux_bounds (Zpos (Pos.iter xO p d)) ex' loc_Exact
                (Zpos p)) as (Hle & Hge);
      [lia | lia | lia | apply record_le_exact; lia |].
    split; [exact Hle|]. apply Hge; lia.
Qed.

Lemma new_location_exact (nb_steps : Z) : new_location nb_steps 0 = loc_Exact.
Proof.
  unfold new_location, new_location_even, new_location_odd.
  destruct (Z.even nb_steps); reflexivity.
Qed.

Lemma pow2_split (a b : Z) : 0 <= a -> 0 <= b -> 2 ^ (a + b) = 2 ^ a * 2 ^ b.
Proof. intros. apply Z.pow_add_r; assumption. Qed.

(** The quotient of a float by one that is not smaller is at most 1, and
    the quotient of a float by itself is 1. *)
Lemma div_bounds (a b : F32.float) (A B : Z) :
  float_le a A -> float_ge b B -> 0 <= A <= B -> 0 < B ->
  float_le (F32.div a b) 1 /\
  (float_ge a B -> float_le b B -> float_ge (F32.div a b) 1).
Proof.
  intros Ha Hb HAB HB.
  destruct b as [s2|s2| |[|] m2 e2]; cbn [float_ge] in Hb;
    try contradiction.
  destruct Hb as (He2 & Hm2).
  destruct a as [s1|s1| |[|] m1 e1]; cbn [float_le] in Ha;
    try contradiction.
  { split; [exact I|]. cbn [float_ge]. tauto. }
  destruct Ha as (He1 & Hm1).
  assert (P1 : 0 < 2 ^ (- e1)) by (apply Z.pow_pos_nonneg; lia).
  assert (P2 : 0 < 2 ^ (- e2)) by (apply Z.pow_pos_nonneg; lia).
  (* the value of [a] is at most the value of [b] *)
  assert (X : Zpos m1 * 2 ^ (- e2) <= Zpos m2 * 2 ^ (- e1)) by nia.
  unfold F32.div, SFdiv, SFdiv_core_binary. cbn [xorb].
  set (d1 := Zdigits2 (Zpos m1)). set (d2 := Zdigits2 (Zpos m2)).
  assert (Hd : d1 + e1 <= d2 + e2).
  { pose proof (Zdigits2_gt (Zpos m1) ltac:(lia)) as G1. fold d1 in G1.
    pose proof (Zdigits2_lt (Zpos m2) ltac:(lia)) as G2. fold d2 in G2.
    assert (D1 : 1 <= d1) by (unfold d1, Zdigits2; lia).
    assert (D2 : 1 <= d2) by (unfold d2, Zdigits2; lia).
    assert (Hlt : 2 ^ (d1 - 1 + - e2) < 2 ^ (d2 + - e1)).
    { rewrite !pow2_split by lia. nia. }
    apply Z.pow_lt_mono_r_iff in Hlt; lia. }
  set (e' := Z.min (fexp F32.prec F32.emax (d1 + e1 - (d2 + e2))) (e1 - e2)).
  assert (He' : e' <= 0).
  { pose proof (fexp_small (d1 + e1 - (d2 + e2)) ltac:(lia)). lia. }
  assert (Hs : 0 <= e1 - e2 - e') by lia.
  set (m' := match e1 - e2 - e' with
             | 0 => Zpos m1
             | Zpos _ => Z.shiftl (Zpos m1) (e1 - e2 - e')
             | Zneg _ => 0
             end).
  assert (Em : m' = Zpos m1 * 2 ^ (e1 - e2 - e')).
  { unfold m'. destruct (e1 - e2 - e') as [|s|s] eqn:Es.
    - change (2 ^ 0) with 1. lia.
    - apply Z.shiftl_mul_pow2. lia.
    - lia. }
  clearbody m'.
  assert (P' : 0 < 2 ^ (- e')) by (apply Z.pow_pos_nonneg; lia).
  assert (Ps : 0 < 2 ^ (e1 - e2 - e')) by (apply Z.pow_pos_nonneg; lia).
  assert (E1 : 2 ^ (- e2) * 2 ^ (- e') = 2 ^ (e1 - e2 - e') * 2 ^ (- e1)).
  { rewrite <- !pow2_split by lia. f_equal. lia. }
  pose proof (Z_div_mod m' (Zpos m2) ltac:(lia)) as Hdiv.
  destruct (Z.div_eucl m' (Zpos m2)) as (q, r). destruct Hdiv as (Hq & Hr).
  assert (Hup : m' <= Zpos m2 * 2 ^ (- e')).
  { assert (m' * 2 ^ (- e1) <= Zpos m2 * 2 ^ (- e') * 2 ^ (- e1)); [|nia].
    rewrite Em.
    replace (Zpos m1 * 2 ^ (e1 - e2 - e') * 2 ^ (- e1))
      with (Zpos m1 * 2 ^ (- e2) * 2 ^ (- e'))
      by (rewrite <- !Z.mul_assoc, E1; ring).
    nia. }
  assert (Hq0 : 0 <= q) by nia.
  assert (HqT : q <= 2 ^ (- e')) by nia.
  destruct (binary_round_aux_bounds q e' (new_location (Zpos m2) r) 1)
    as (Hle & Hge); [exact Hq0 | exact He' | lia | |].
  { unfold record_le. rewrite shr_m_of_loc, Z.mul_1_l.
    destruct (Z.eq_dec q (2 ^ (- e'))) as [Eq|Nq]; [right|left; lia].
    assert (r = 0) by nia. subst r. rewrite new_location_exact.
    cbn [shr_record_of_loc shr_r shr_s]. auto. }
  split; [exact Hle|].
  intros Ha' Hb'. cbn [float_ge float_le] in Ha', Hb'.
  destruct Ha' as (_ & Hm1'). destruct Hb' as (_ & Hm2').
  apply Hge; [lia|]. rewrite Z.mul_1_l.
  assert (Y : Zpos m2 * 2 ^ (- e1) <= Zpos m1 * 2 ^ (- e2)) by nia.
  assert (Hlow : Zpos m2 * 2 ^ (- e') <= m').
  { assert (Zpos m2 * 2 ^ (- e') * 2 ^ (- e1) <= m' * 2 ^ (- e1)); [|nia].
    rewrite Em.
    replace (Zpos m1 * 2 ^ (e1 - e2 - e') * 2 ^ (- e1))
      with (Zpos m1 * 2 ^ (- e2) * 2 ^ (- e'))
      by (rewrite <- !Z.mul_assoc, E1; ring).
    nia. }
  nia.
Qed.

(** The product of two floats of [0 .. A] and [0 .. B]. *)
Lemma mul_bounds (a b : F32.float) (A B : Z) :
  float_le a A -> float_le b B -> 0 <= A -> 0 <= B -> A * B < 2 ^ 24 ->
  float_le (F32.mul a b) (A * B) /\
  (forall A' B', 0 < A' -> 0 < B' -> float_ge a A' -> float_ge b B' ->
     float_ge (F32.mul a b) (A' * B')).
Proof.
  intros Ha Hb HA HB HAB.
  destruct a as [s1|s1| |[|] m1 e1]; cbn [float_le] in Ha; try tauto;
    destruct b as [s2|s2| |[|] m2 e2]; cbn [float_le] in Hb; try tauto;
    try (split; [exact I | intros A' B' _ _ Ha' Hb';
                           cbn [float_ge] in Ha', Hb'; tauto]).
  destruct Ha as (He1 & Hm1). destruct Hb as (He2 & Hm2).
  assert (P1 : 0 < 2 ^ (- e1)) by (apply Z.pow_pos_nonneg; lia).
  assert (P2 : 0 < 2 ^ (- e2)) by (apply Z.pow_pos_nonneg; lia).
  assert (E : 2 ^ (- (e1 + e2)) = 2 ^ (- e1) * 2 ^ (- e2)).
  { rewrite <- pow2_split by lia. f_equal. lia. }
  unfold F32.mul, SFmul. cbn [xorb].
  destruct (binary_round_aux_bounds (Zpos (m1 * m2)) (e1 + e2) loc_Exact
              (A * B)) as (Hle & Hge);
    [lia | lia | nia | apply record_le_exact |].
  { rewrite E, Pos2Z.inj_mul. nia. }
  split; [exact Hle|].
  intros A' B' HA' HB' Ha' Hb'. cbn [float_ge] in Ha', Hb'.
  apply Hge; [nia|]. rewrite E, Pos2Z.inj_mul. nia.
Qed.

(** The conversion to [size_t] of a float of [0 .. K] is defined. *)
Lemma to_size_t_bounds (x : F32.float) (K : Z) :
  float_le x K -> 0 <= K < size_t.modulus ->
  exists v, F32.to_size_t x = Some v /\ 0 <= v <= K /\
            (forall L, float_ge x L -> L <= v).
Proof.
  intros Hx HK.
  destruct x as [s|s| |[|] m e]; cbn [float_le] in Hx; try tauto.
  - exists 0. split; [reflexivity|]. split; [lia|].
    cbn [float_ge]. tauto.
  - destruct Hx as (He & Hm).
    assert (P : 0 < 2 ^ (- e)) by (apply Z.pow_pos_nonneg; lia).
    unfold F32.to_size_t, F32.trunc.
    set (t := if 0 <=? e then Zpos m * 2 ^ e else Zpos m / 2 ^ (- e)).
    assert (Et : t = Zpos m / 2 ^ (- e)).
    { unfold t. destruct (Z.leb_spec 0 e); [|reflexivity].
      replace e with 0 by lia. change (2 ^ (- 0)) with 1.
      change (2 ^ 0) with 1. rewrite Z.div_1_r. lia. }
    clearbody t. subst t.
    assert (H0 : 0 <= Zpos m / 2 ^ (- e)) by (apply Z.div_pos; lia).
    assert (H1 : Zpos m / 2 ^ (- e) <= K).
    { apply Z.div_le_upper_bound; [exact P|]. lia. }
    exists (Zpos m / 2 ^ (- e)).
    replace ((0 <=? Zpos m / 2 ^ (- e))
             && (Zpos m / 2 ^ (- e) <? size_t.modulus)) with true
      by (symmetry; apply andb_true_iff; split;
          [apply Z.leb_le | apply Z.ltb_lt]; lia).
    split; [reflexivity|]. split; [lia|].
    intros L (_ & HL). apply Z.div_le_lower_bound; [exact P|]. lia.
Qed.

(** ** The generators *)

Lemma In_indices (count i : Z) : In i (indices count) <-> 0 <= i < count.
Proof.
  unfold indices. rewrite in_map_iff. split.
  - intros (n & <- & Hn). apply in_seq in Hn. lia.
  - intros H. exists (Z.to_nat i). split; [lia|]. apply in_seq. lia.
Qed.

Lemma stored_map (f : Z -> option Z) (P : Z -> Prop) (idx : list Z) :
  (forall i, In i idx -> exists v, f i = Some v /\ P v) ->
  exists l, stored (map f idx) = Some l /\
            Forall2 (fun i v => f i = Some v) idx l /\ Forall P l.
Proof.
  induction idx as [|i idx IH]; intros H.
  - exists []. repeat split; constructor.
  - destruct (H i (or_introl eq_refl)) as (v & Hv & HP).
    destruct IH as (l & Hl & Hf & HPl); [intros j Hj; apply H; now right|].
    exists (v :: l). cbn [map stored]. rewrite Hv, Hl.
    repeat split; constructor; assumption.
Qed.

Lemma Forall2_In_l {A B : Type} (R : A -> B -> Prop) (l1 : list A)
    (l2 : list B) (a : A) :
  Forall2 R l1 l2 -> In a l1 -> exists b, In b l2 /\ R a b.
Proof.
  induction 1 as [|x y l1 l2 Hxy _ IH]; intros Ha; [destruct Ha|].
  destruct Ha as [->|Ha].
  - exists y. split; [now left | exact Hxy].
  - destruct (IH Ha) as (b & Hb & HR). exists b. split; [now right | exact HR].
Qed.

(** The loop and the sort that the generators share, for a [y] within
    [0 .. c_maxValue] that is 0 at the first index and [c_maxValue] at the
    last one. *)
Lemma generated_spans_the_range (y : Z -> F32.float) (count : Z) :
  1 <= count ->
  (forall index, 0 <= index < count -> float_le (y index) c_maxValue) ->
  float_le (y 0) 0 ->
  float_ge (y (count - 1)) c_maxValue ->
  spans_the_range count
    (option_map ZSort.sort
       (stored (map (fun index => F32.to_size_t (y index)) (indices count)))).
Proof.
  intros Hc Hy H0 Hlast.
  assert (HK : 0 <= c_maxValue < size_t.modulus)
    by (rewrite modulus_eq; unfold c_maxValue; lia).
  destruct (stored_map (fun index => F32.to_size_t (y index))
              (fun v => 0 <= v <= c_maxValue) (indices count))
    as (l & Hl & Hf & HP).
  { intros i Hi. apply In_indices in Hi.
    destruct (to_size_t_bounds (y i) c_maxValue (Hy i Hi) HK)
      as (v & Hv & Hb & _). eauto. }
  pose proof (ZSort.Permuted_sort l) as Hperm.
  assert (Hsize : size (ZSort.sort l) = count).
  { unfold size. rewrite <- (Permutation_length Hperm),
      <- (Forall2_length Hf), indices_length. lia. }
  assert (Hsorted : Sorted Z.le (ZSort.sort l))
    by (apply Sorted_leb_le, ZSort.Sorted_sort).
  assert (Hall : Forall (fun v => 0 <= v <= c_maxValue) (ZSort.sort l))
    by (eapply Permutation_Forall; eassumption).
  assert (In0 : In 0 (ZSort.sort l)).
  { destruct (Forall2_In_l _ _ _ 0 Hf) as (v & Hin & Hv);
      [apply In_indices; lia|].
    destruct (to_size_t_bounds (y 0) 0 H0) as (v' & Hv' & Hb & _);
      [rewrite modulus_eq; lia|].
    cbv beta in Hv. rewrite Hv' in Hv. inversion Hv; subst v'.
    replace v with 0 in Hin by lia.
    eapply Permutation_in; eassumption. }
  assert (Inmax : In c_maxValue (ZSort.sort l)).
  { destruct (Forall2_In_l _ _ _ (count - 1) Hf) as (v & Hin & Hv);
      [apply In_indices; lia|].
    assert (Hi : 0 <= count - 1 < count) by lia.
    destruct (to_size_t_bounds (y (count - 1)) c_maxValue
                (Hy _ Hi) HK) as (v' & Hv' & Hb & Hge).
    cbv beta in Hv. rewrite Hv' in Hv. inversion Hv; subst v'.
    specialize (Hge _ Hlast). replace v with c_maxValue in Hin by lia.
    eapply Permutation_in; eassumption. }
  rewrite Hl. cbn [option_map]. exists (ZSort.sort l).
  split; [reflexivity|]. split; [exact Hsize|]. split; [exact Hsorted|].
  split; [exact Hall|]. rewrite Forall_forall in Hall. split.
  - destruct (read_defined (ZSort.sort l) 0) as (v & Hv); [lia|].
    destruct (In_read _ _ In0) as (i & Hi).
    pose proof (read_in_bounds _ _ _ Hi).
    pose proof (sorted_read _ 0 i v 0 Hsorted ltac:(lia) Hv Hi).
    pose proof (Hall v (read_In _ _ _ Hv)).
    rewrite Hv. f_equal. lia.
  - destruct (read_defined (ZSort.sort l) (count - 1)) as (v & Hv); [lia|].
    destruct (In_read _ _ Inmax) as (i & Hi).
    pose proof (read_in_bounds _ _ _ Hi).
    pose proof (sorted_read _ i (count - 1) c_maxValue v Hsorted
                  ltac:(lia) Hi Hv).
    pose proof (Hall v (read_In _ _ _ Hv)).
    rewrite Hv. f_equal. lia.
Qed.

(** [x = float(index) / float(count - 1)] is within [0 .. 1]: it is 0 at
    the first index and 1 at the last one. *)
Lemma x_bounds (count index : Z) :
  2 <= count <= 2 ^ 24 -> 0 <= index < count ->
  float_le (F32.div (F32.of_Z index) (F32.of_Z (size_t.sub count 1))) 1 /\
  (index = 0 ->
   float_le (F32.div (F32.of_Z index) (F32.of_Z (size_t.sub count 1))) 0) /\
  (index = count - 1 ->
   float_ge (F32.div (F32.of_Z index) (F32.of_Z (size_t.sub count 1))) 1).
Proof.
  intros Hc Hi.
  assert (E : size_t.sub count 1 = count - 1).
  { unfold size_t.sub. apply wrap_small. rewrite modulus_eq. lia. }
  rewrite E.
  destruct (of_Z_exact (count - 1)) as (Dle & Dge); [lia|].
  destruct (Z.eq_dec index 0) as [->|Hn].
  - change (F32.of_Z 0) with (S754_zero false).
    destruct (F32.of_Z (count - 1)) as [s|s| |[|] m e];
      cbn [float_ge] in Dge; try contradiction.
    cbn. split; [exact I|]. split; [intros _; exact I | lia].
  - destruct (of_Z_exact index) as (Nle & Nge); [lia|].
    destruct (div_bounds _ _ index (count - 1) Nle Dge) as (Hle & Hge);
      [lia | lia |].
    split; [exact Hle|]. split; [lia|]. intros ->. now apply Hge.
Qed.

Lemma c_maxValue_exact :
  float_le (F32.of_Z c_maxValue) c_maxValue /\
  float_ge (F32.of_Z c_maxValue) c_maxValue.
Proof. apply of_Z_exact. unfold c_maxValue. lia. Qed.

(** [y *= c_maxValue] for a [y] of [0 .. 1]. *)
Lemma scaled_bounds (y : F32.float) :
  float_le y 1 ->
  float_le (F32.mul y (F32.of_Z c_maxValue)) c_maxValue /\
  (float_le y 0 -> float_le (F32.mul y (F32.of_Z c_maxValue)) 0) /\
  (float_ge y 1 -> float_ge (F32.mul y (F32.of_Z c_maxValue)) c_maxValue).
Proof.
  intros Hy. destruct c_maxValue_exact as (Cle & Cge).
  assert (Hc : 0 < c_maxValue < 2 ^ 24) by (unfold c_maxValue; lia).
  destruct (mul_bounds y _ 1 c_maxValue Hy Cle) as (Hle & Hge);
    [lia | lia | lia |].
  rewrite Z.mul_1_l in Hle. split; [exact Hle|]. split.
  - intros H0. destruct (mul_bounds y _ 0 c_maxValue H0 Cle) as (Hle0 & _);
      [lia | lia | lia |]. exact Hle0.
  - intros H1. specialize (Hge 1 c_maxValue ltac:(lia) ltac:(lia) H1 Cge).
    rewrite Z.mul_1_l in Hge. exact Hge.
Qed.

(** [x * x] for an [x] of [0 .. 1]. *)
Lemma product_bounds (x y : F32.float) :
  float_le x 1 -> float_le y 1 ->
  float_le (F32.mul x y) 1 /\
  (float_le x 0 -> float_le (F32.mul x y) 0) /\
  (float_ge x 1 -> float_ge y 1 -> float_ge (F32.mul x y) 1).
Proof.
  intros Hx Hy.
  destruct (mul_bounds x y 1 1 Hx Hy) as (Hle & Hge); [lia | lia | lia |].
  split; [exact Hle|]. split.
  - intros H0. destruct (mul_bounds x y 0 1 H0 Hy) as (Hle0 & _);
      [lia | lia | lia |]. exact Hle0.
  - intros H1 H2. exact (Hge 1 1 ltac:(lia) ltac:(lia) H1 H2).
Qed.

Lemma MakeList_Linear_spans (count : Z) :
  2 <= count <= 2 ^ 24 -> spans_the_range count (MakeList_Linear count).
Proof.
  intros Hc. unfold MakeList_Linear.
  apply (generated_spans_the_range (Linear_y count)); [lia | | |].
  - intros i Hi. destruct (x_bounds count i Hc Hi) as (Hx & _).
    now apply scaled_bounds.
  - destruct (x_bounds count 0 Hc) as (Hx & H0 & _); [lia|].
    apply scaled_bounds; auto.
  - destruct (x_bounds count (count - 1) Hc) as (Hx & _ & H1); [lia|].
    apply scaled_bounds; auto.
Qed.

Lemma MakeList_Quadratic_spans (count : Z) :
  2 <= count <= 2 ^ 24 -> spans_the_range count (MakeList_Quadratic count).
Proof.
  intros Hc. unfold MakeList_Quadratic.
  apply (generated_spans_the_range (Quadratic_y count)); [lia | | |].
  - intros i Hi. destruct (x_bounds count i Hc Hi) as (Hx & _).
    apply scaled_bounds. now apply product_bounds.
  - destruct (x_bounds count 0 Hc) as (Hx & H0 & _); [lia|].
    destruct (product_bounds _ _ Hx Hx) as (Hp & Hp0 & _).
    apply scaled_bounds; auto.
  - destruct (x_bounds count (count - 1) Hc) as (Hx & _ & H1); [lia|].
    destruct (product_bounds _ _ Hx Hx) as (Hp & _ & Hp1).
    apply scaled_bounds; auto.
Qed.

Lemma MakeList_Cubic_spans (count : Z) :
  2 <= count <= 2 ^ 24 -> spans_the_range count (MakeList_Cubic count).
Proof.
  intros Hc. unfold MakeList_Cubic.
  apply (generated_spans_the_range (Cubic_y count)); [lia | | |].
  - intros i Hi. destruct (x_bounds count i Hc Hi) as (Hx & _).
    destruct (product_bounds _ _ Hx Hx) as (Hp & _).
    apply scaled_bounds. now apply product_bounds.
  - destruct (x_bounds count 0 Hc) as (Hx & H0 & _); [lia|].
    destruct (product_bounds _ _ Hx Hx) as (Hp & Hp0 & _).
    destruct (product_bounds _ _ Hp Hx) as (Hq & Hq0 & _).
    apply scaled_bounds; auto.
  - destruct (x_bounds count (count - 1) Hc) as (Hx & _ & H1); [lia|].
    destruct (product_bounds _ _ Hx Hx) as (Hp & _ & Hp1).
    destruct (product_bounds _ _ Hp Hx) as (Hq & _ & Hq1).
    apply scaled_bounds; auto.
Qed.

(** The generators end with [std::sort]: what they return, when no
    undefined value is stored, is sorted and has [count] elements. *)
Lemma generated_sorted (f : Z -> option Z) (count : Z) (values : list Z) :
  0 <= count ->
  option_map ZSort.sort (stored (map f (indices count))) = Some values ->
  size values = count /\ Sorted Z.le values.
Proof.
  intros Hc. destruct (stored _) as [l|] eqn:El; [|discriminate].
  cbn [option_map]. intros H; inversion H; subst values. clear H.
  apply stored_Forall2 in El. apply Forall2_length in El.
  rewrite length_map in El.
  pose proof (ZSort.Permuted_sort l) as Hperm. split.
  - unfold size. rewrite <- (Permutation_length Hperm), <- El,
      indices_length. lia.
  - apply Sorted_leb_le, ZSort.Sorted_sort.
Qed.

Lemma Sorted_set_last (l : list Z) (a M : Z) :
  Sorted Z.le (l ++ [a]) -> Forall (fun v => v <= M) l ->
  Sorted Z.le (l ++ [M]).
Proof.
  induction l as [|x t IH]; intros Hs Hall.
  - repeat constructor.
  - cbn [app] in *. inversion Hs as [|? ? Hs' Hhd]; subst.
    inversion Hall as [|? ? Hx Ht]; subst.
    constructor; [now apply IH|].
    destruct t as [|z t]; cbn [app] in *; constructor.
    + exact Hx.
    + inversion Hhd; subst. assumption.
Qed.

Lemma read_app_last (l : list Z) (a : Z) :
  read (l ++ [a]) (size l) = Some a.
Proof.
  unfold read, size. rewrite length_app. cbn [length].
  replace (0 <=? Z.of_nat (length l)) with true
    by (symmetry; apply Z.leb_le; lia).
  replace (Z.of_nat (length l) <? Z.of_nat (length l + 1)) with true
    by (symmetry; apply Z.ltb_lt; lia).
  cbn [andb]. rewrite Nat2Z.id, nth_error_app2 by lia.
  rewrite Nat.sub_diag. reflexivity.
Qed.

Lemma read_app_front (l : list Z) (a b i : Z) :
  0 <= i < size l -> read (l ++ [a]) i = read (l ++ [b]) i.
Proof.
  intros Hi. unfold read, size in *. rewrite !length_app. cbn [length].
  destruct ((0 <=? i) && (i <? Z.of_nat (length l + 1))); [|reflexivity].
  rewrite !nth_error_app1 by lia. reflexivity.
Qed.

(** The linear generator with its last element made an outlier. *)
Lemma MakeList_Linear_Outlier_spec (count : Z) :
  2 <= count <= 2 ^ 24 ->
  exists values,
    MakeList_Linear_Outlier count = Some values /\
    size values = count /\
    Sorted Z.le values /\
    read values 0 = Some 0 /\
    read values (count - 1) = Some (c_maxValue * 100) /\
    (forall i v, 0 <= i < count - 1 -> read values i = Some v ->
                 0 <= v <= c_maxValue).
Proof.
  intros Hc.
  destruct (MakeList_Linear_spans count Hc)
    as (l & Hl & Hsize & Hsorted & Hall & Hfirst & Hlast).
  unfold MakeList_Linear_Outlier. rewrite Hl.
  change (size_t.wrap (c_maxValue * 100)) with (c_maxValue * 100).
  assert (Hne : l <> []) by (intros ->; cbn in Hsize; lia).
  pose proof (app_removelast_last 0 Hne) as El.
  set (l' := removelast l) in *. set (a := last l 0) in *.
  assert (Hl' : size l' = count - 1).
  { unfold size in *. rewrite El, length_app in Hsize. cbn [length] in Hsize.
    lia. }
  assert (Hset : set_last l (c_maxValue * 100)
                 = Some (l' ++ [c_maxValue * 100])).
  { unfold set_last. destruct l; [contradiction | reflexivity]. }
  rewrite Hset. exists (l' ++ [c_maxValue * 100]).
  rewrite El in Hsorted, Hall, Hfirst.
  apply Forall_app in Hall as (Hall' & _).
  split; [reflexivity|]. split.
  { unfold size in *. rewrite length_app. cbn [length]. lia. }
  split.
  { apply (Sorted_set_last l' a); [exact Hsorted|].
    eapply Forall_impl; [|exact Hall']. cbv beta. unfold c_maxValue. lia. }
  split.
  { rewrite <- Hfirst. apply read_app_front. lia. }
  split.
  { rewrite <- Hl'. apply read_app_last. }
  intros i v Hi Hv.
  rewrite (read_app_front l' _ a) in Hv by lia.
  rewrite Forall_forall in Hall'.
  unfold read in Hv. unfold size in Hl'.
  destruct ((0 <=? i) && (i <? size (l' ++ [a]))); [|discriminate].
  rewrite nth_error_app1 in Hv by lia.
  apply Hall'. eapply nth_error_In; eassumption.
Qed.

Lemma MakeList_Random_spec (draw : Z -> Z) (count : Z) (values : list Z) :
  0 <= count -> MakeList_Random draw count = Some values ->
  size values = count /\ Sorted Z.le values.
Proof.
  intros Hc H. unfold MakeList_Random in H. inversion H; subst values.
  pose proof (ZSort.Permuted_sort (map draw (indices count))) as Hperm.
  split.
  - unfold size. rewrite <- (Permutation_length Hperm), length_map,
      indices_length. lia.
  - apply Sorted_leb_le, ZSort.Sorted_sort.
Qed.

Lemma MakeFns_sorted (draw : Z -> Z) (logf : F32.float -> F32.float)
    (g : generator) (count : Z) (values : list Z) :
  0 <= count <= 2 ^ 24 ->
  MakeFns draw logf g count = Some values ->
  size values = count /\ Sorted Z.le values.
Proof.
  intros Hc H. destruct g; cbn [MakeFns] in H.
  - apply (MakeList_Random_spec draw); [lia | exact H].
  - eapply generated_sorted; [|exact H]. lia.
  - destruct (Z_le_gt_dec 2 count) as [H2|H2].
    + destruct (MakeList_Linear_Outlier_spec count) as (v & Hv & Hs & Hso & _);
        [lia|].
      rewrite Hv in H. inversion H; subst v. auto.
    + exfalso. assert (E : count = 0 \/ count = 1) by lia.
      destruct E as [-> | ->]; vm_compute in H; discriminate.
  - eapply generated_sorted; [|exact H]. lia.
  - eapply generated_sorted; [|exact H]. lia.
  - eapply generated_sorted; [|exact H]. lia.
Qed.

(** X10. For every count from 2 to 2^24 the linear, the quadratic and the
    cubic generator store no undefined value, and the vector they return
    has [count] elements, is sorted, holds only values of
    [0 .. c_maxValue], starts with 0 and ends with [c_maxValue]: the float
    [x] is within [0 .. 1] however the divisions and the products are
    rounded. *)
Theorem generators_span_the_range (count : Z) :
  2 <= count <= 2 ^ 24 ->
  spans_the_range count (MakeList_Linear count) /\
  spans_the_range count (MakeList_Quadratic count) /\
  spans_the_range count (MakeList_Cubic count).
Proof.
  intros Hc. split; [|split].
  - now apply MakeList_Linear_spans.
  - now apply MakeList_Quadratic_spans.
  - now apply MakeList_Cubic_spans.
Qed.

Lemma generators_span_the_range_witness :
  spans_the_range 1000 (MakeList_Linear 1000) /\
  spans_the_range 1000 (MakeList_Quadratic 1000) /\
  spans_the_range 1000 (MakeList_Cubic 1000).
Proof. apply generators_span_the_range. lia. Defined.

(** X11. For every count from 2 to 2^24 [MakeList_Linear_Outlier] returns
    a vector of [count] elements that is still sorted after its last
    element was overwritten: it starts with 0, ends with
    [c_maxValue * 100], and every other element is within
    [0 .. c_maxValue]. *)
Theorem MakeList_Linear_Outlier_stays_sorted (count : Z) :
  2 <= count <= 2 ^ 24 ->
  exists values,
    MakeList_Linear_Outlier count = Some values /\
    size values = count /\
    Sorted Z.le values /\
    read values 0 = Some 0 /\
    read values (count - 1) = Some (c_maxValue * 100) /\
    (forall i v, 0 <= i < count - 1 -> read values i = Some v ->
                 0 <= v <= c_maxValue).
Proof. apply MakeList_Linear_Outlier_spec. Qed.

Lemma MakeList_Linear_Outlier_stays_sorted_witness :
  exists values,
    MakeList_Linear_Outlier 11 = Some values /\
    size values = 11 /\
    Sorted Z.le values /\
    read values 0 = Some 0 /\
    read values (11 - 1) = Some (c_maxValue * 100) /\
    (forall i v, 0 <= i < 11 - 1 -> read values i = Some v ->
                 0 <= v <= c_maxValue).
Proof. apply MakeList_Linear_Outlier_stays_sorted. lia. Defined.

(** X12. The trials of [main] print no verification failure.  For a count
    from 1 to 2^24, a vector that one of the six generators of [MakeFns]
    returns has [count] elements and is sorted, and each of the five
    strategies passes [VerifyResults] on it, for every value searched
    for; and from a count of 2 on, every generator but the logarithmic
    one, whose values depend on the [log] of the C library, does return a
    vector. *)
Theorem generated_vectors_pass_verification
    (unrepresentable : F32.float -> Z) (draw : Z -> Z)
    (logf : F32.float -> F32.float) (g : generator) (count : Z) :
  1 <= count <= 2 ^ 24 ->
  (2 <= count -> g <> Log ->
   exists values, MakeFns draw logf g count = Some values) /\
  (forall values,
     MakeFns draw logf g count = Some values ->
     size values = count /\
     Sorted Z.le values /\
     forall s searchValue list_name test,
       main_trial unrepresentable s values searchValue list_name test
         = Some None).
Proof.
  intros Hc. split.
  - intros H2 Hg. destruct g; cbn [MakeFns].
    + unfold MakeList_Random. eauto.
    + destruct (MakeList_Linear_spans count) as (v & Hv & _); [lia|]. eauto.
    + destruct (MakeList_Linear_Outlier_spec count) as (v & Hv & _); [lia|].
      eauto.
    + destruct (MakeList_Quadratic_spans count) as (v & Hv & _); [lia|]. eauto.
    + destruct (MakeList_Cubic_spans count) as (v & Hv & _); [lia|]. eauto.
    + contradiction.
  - intros values H.
    destruct (MakeFns_sorted draw logf g count values) as (Hsize & Hsorted);
      [lia | exact H |].
    split; [exact Hsize|]. split; [exact Hsorted|].
    intros s searchValue list_name test. apply trial_sorted.
    + intros ->. cbn in Hsize. lia.
    + rewrite Hsize, vector_max_size_eq. lia.
    + exact Hsorted.
Qed.

Lemma generated_vectors_pass_verification_witness :
  (2 <= 3 -> Linear_Outlier <> Log ->
   exists values,
     MakeFns (fun _ => 0) logf_1_2_3 Linear_Outlier 3 = Some values) /\
  (forall values,
     MakeFns (fun _ => 0) logf_1_2_3 Linear_Outlier 3 = Some values ->
     size values = 3 /\
     Sorted Z.le values /\
     forall s searchValue list_name test,
       main_trial (fun _ => 0) s values searchValue list_name test
         = Some None).
Proof. apply generated_vectors_pass_verification. lia. Defined.

(** X13. The counts 0 and 1.  For a count of 0 the generators return the
    empty vector, but [MakeList_Linear_Outlier] then stores through
    [rbegin()] of an empty vector, which is undefined.  For a count of 1,
    which [main] reaches, [MakeList_Quadratic] and [MakeList_Cubic]
    divide 0 by [float(count - 1) = 0] as [MakeList_Linear] does, and
    store the conversion of a NaN, which is undefined; so does
    [MakeList_Linear_Outlier].  [MakeList_Random] returns its one draw. *)
Theorem generators_on_zero_and_one
    (draw : Z -> Z) (logf : F32.float -> F32.float) :
  (forall g, g <> Linear_Outlier -> MakeFns draw logf g 0 = Some []) /\
  MakeList_Linear_Outlier 0 = None /\
  Quadratic_y 1 0 = S754_nan /\
  Cubic_y 1 0 = S754_nan /\
  MakeList_Quadratic 1 = None /\
  MakeList_Cubic 1 = None /\
  MakeList_Linear_Outlier 1 = None /\
  MakeList_Random draw 1 = Some [draw 0].
Proof.
  split; [intros g Hg; destruct g; try reflexivity; contradiction|].
  repeat split; vm_compute; reflexivity.
Qed.

Example generators_five_elements :
  MakeList_Quadratic 5 = Some [0; 125; 500; 1125; 2000] /\
  MakeList_Cubic 5 = Some [0; 31; 250; 843; 2000] /\
  MakeList_Linear_Outlier 5 = Some [0; 500; 1000; 1500; 200000] /\
  MakeList_Random (fun i => 7 - i) 3 = Some [5; 6; 7].
Proof. repeat split; vm_compute; reflexivity. Qed.
